(** * Reporting script [main.py]: ten read-only SQL reports over [data.sqlite]

    The script opens one SQLite connection, runs two catalogue queries and
    ten analytical [SELECT] statements through [pd.read_sql], and closes the
    connection.  The SQL text is the program: every query is embedded as a
    function over the rows of the tables it names, built from join, grouping,
    ordering and limit combinators; the Python statements are embedded in a
    state-and-exception monad over the process state. *)

From Stdlib Require Import List String Ascii ZArith QArith Bool Lia.
From Stdlib Require Import Permutation Sorted RelationClasses.
Import ListNotations.

Local Open Scope string_scope.
Local Open Scope list_scope.
Local Open Scope Z_scope.

(** ** SQL values *)

(** Storage classes used by the reports: NULL, INTEGER, TEXT.  Computed reals
    ([CAST(.. AS REAL)], [AVG]) are exact rationals; binary floating point
    rounding is outside the model.  INTEGER is a 64-bit signed integer:
    [SUM] raises when its running sum leaves that range. *)
Inductive value : Type :=
| VNull
| VInt (n : Z)
| VText (s : string).

Definition is_null (v : value) : bool :=
  match v with VNull => true | _ => false end.

(** [a = b] in an [ON] or [WHERE] clause: only a comparison that is true
    selects, and a comparison with NULL is never true.  Values of different
    storage classes are unequal (no column affinity is modelled). *)
Definition sql_eq (a b : value) : bool :=
  match a, b with
  | VInt x, VInt y => (x =? y)%Z
  | VText s, VText t => (s =? t)%string
  | _, _ => false
  end.

(** Equality used by [GROUP BY], [DISTINCT] and [COUNT(DISTINCT ..)]: NULLs are
    not distinct from each other. *)
Definition value_eq_dec (a b : value) : {a = b} + {a <> b}.
Proof. decide equality; [apply Z.eq_dec | apply string_dec]. Defined.

(** Sort order of [ORDER BY .. ASC]: NULL first, then integers, then text
    (byte-wise). *)
Definition value_compare (a b : value) : comparison :=
  match a, b with
  | VNull, VNull => Eq
  | VNull, _ => Lt
  | _, VNull => Gt
  | VInt x, VInt y => (x ?= y)%Z
  | VInt _, VText _ => Lt
  | VText _, VInt _ => Gt
  | VText s, VText t => String.compare s t
  end.

(** Several [ORDER BY] keys: the next key decides among equals. *)
Definition lex (c1 c2 : comparison) : comparison :=
  match c1 with Eq => c2 | _ => c1 end.

Definition leb_of (c : comparison) : bool :=
  match c with Gt => false | _ => true end.

Lemma sql_eq_not_null (a b : value) :
  sql_eq a b = true -> a <> VNull /\ b <> VNull.
Proof. destruct a, b; simpl; intro H; try discriminate; split; discriminate. Qed.

(** ** What SQL leaves to the engine *)

(** A [SELECT] fixes which rows are returned, and their order only as far as
    its [ORDER BY] keys decide; SQLite documents the order of rows with equal
    keys, and of rows without [ORDER BY], as undefined.  What is left is the
    engine's: [arrange] is its choice of an order wherever the query leaves
    one open (among all rows without [ORDER BY], among rows of equal keys
    with it, among the values an aggregate adds up), and [text_to_real] its
    text-to-number conversion.  No engine is singled out as the one the
    script runs on: what is proved of the reports is proved for all. *)
Record Engine : Type := {
  arrange : forall A : Type, list A -> list A;
  arrange_perm : forall (A : Type) (l : list A), Permutation (arrange A l) l;
  text_to_real : string -> Q
}.

Arguments arrange E {A} l : rename.

(** Reference conversion: optional blanks, optional sign, digits, optional
    fraction; text without such a prefix converts to 0. *)
Definition digit_of (c : ascii) : option Z :=
  let n := Z.of_N (N_of_ascii c) in
  if (48 <=? n) && (n <=? 57) then Some (n - 48) else None.

Fixpoint read_digits (s : string) (acc : Z) (k : nat) : Z * nat * string :=
  match s with
  | String c s' =>
      match digit_of c with
      | Some d => read_digits s' (10 * acc + d) (S k)
      | None => (acc, k, s)
      end
  | EmptyString => (acc, k, s)
  end.

Fixpoint skip_blanks (s : string) : string :=
  match s with
  | String c s' => if Ascii.eqb c " " then skip_blanks s' else s
  | EmptyString => s
  end.

Definition decimal_prefix (s : string) : Q :=
  let s0 := skip_blanks s in
  let '(neg, s1) :=
    match s0 with
    | String c s' =>
        if Ascii.eqb c "-" then (true, s')
        else if Ascii.eqb c "+" then (false, s') else (false, s0)
    | EmptyString => (false, s0)
    end in
  let '(ip, ni, s2) := read_digits s1 0 0 in
  let '(fp, nf) :=
    match s2 with
    | String c s' =>
        if Ascii.eqb c "." then let '(f, n, _) := read_digits s' 0 0 in (f, n)
        else (0, 0%nat)
    | EmptyString => (0, 0%nat)
    end in
  if (ni + nf =? 0)%nat then 0%Q
  else
    let q := Qmake (ip * 10 ^ Z.of_nat nf + fp) (Z.to_pos (10 ^ Z.of_nat nf)) in
    if neg then Qopp q else q.

(** An engine that resolves every open order by table (rowid) order. *)
Definition rowid_engine : Engine :=
  {| arrange := fun A l => l;
     arrange_perm := fun A l => Permutation_refl l;
     text_to_real := decimal_prefix |}.

(** An engine that resolves every open order the other way round. *)
Definition reverse_engine : Engine :=
  {| arrange := fun A l => rev l;
     arrange_perm := fun A l => Permutation_sym (Permutation_rev l);
     text_to_real := decimal_prefix |}.

Example decimal_prefix_ex1 : Qeq_bool (decimal_prefix "6066.78") (Qmake 606678 100) = true.
Proof. reflexivity. Qed.

Example decimal_prefix_ex2 : Qeq_bool (decimal_prefix " -12.5abc") (Qmake (-25) 2) = true.
Proof. reflexivity. Qed.

Example decimal_prefix_ex4 : Qeq_bool (decimal_prefix "+42") (Qmake 42 1) = true.
Proof. reflexivity. Qed.

Example decimal_prefix_ex3 : Qeq_bool (decimal_prefix "n/a") 0%Q = true.
Proof. reflexivity. Qed.

(** ** Tables *)

(** Modelled from the spec: the schema of [data.sqlite] is not part of the
    sources.  Each table carries the columns the ten queries name; every
    column is nullable and untyped, as SQLite columns are, except
    [quantityOrdered], which the data model declares an integer. *)
Module Office.
Record row : Type := { officeCode : value; city : value; state : value; country : value }.
End Office.

Module Employee.
Record row : Type := {
  employeeNumber : value; firstName : value; lastName : value; officeCode : value }.
End Employee.

Module Customer.
Record row : Type := {
  customerNumber : value; contactFirstName : value; contactLastName : value;
  phone : value; salesRepEmployeeNumber : value; creditLimit : value }.
End Customer.

Module Order.
Record row : Type := { orderNumber : value; customerNumber : value }.
End Order.

Module OrderDetail.
Record row : Type := {
  orderNumber : value; productCode : value; quantityOrdered : option Z }.
End OrderDetail.

Module Product.
Record row : Type := { productCode : value; productName : value }.
End Product.

Module Payment.
Record row : Type := { customerNumber : value; amount : value; paymentDate : value }.
End Payment.

(** A database file: each table the queries name is present with its rows
    (in rowid order) or absent from the schema. *)
Record database : Type := {
  offices : option (list Office.row);
  employees : option (list Employee.row);
  customers : option (list Customer.row);
  orders : option (list Order.row);
  orderdetails : option (list OrderDetail.row);
  products : option (list Product.row);
  payments : option (list Payment.row)
}.

(** The file [sqlite3.connect] creates when none exists: no tables. *)
Definition empty_database : database :=
  {| offices := None; employees := None; customers := None; orders := None;
     orderdetails := None; products := None; payments := None |}.

(** ** Exceptions and query results *)

Inductive exn : Type :=
| OperationalError (msg : string)   (* sqlite3: the file cannot be opened *)
| DatabaseError (msg : string)      (* pandas: execution of the SQL failed *)
| ProgrammingError (msg : string)   (* sqlite3: the connection is closed *)
| NameError (msg : string).         (* Python: the name is not bound *)

Definition result (A : Type) : Type := (exn + A)%type.

Definition ok {A : Type} (a : A) : result A := inr a.

Definition rbind {A B : Type} (r : result A) (f : A -> result B) : result B :=
  match r with inl e => inl e | inr a => f a end.

Declare Scope result_scope.
Delimit Scope result_scope with result.
Notation "x <- r ;; k" := (rbind r (fun x => k))
  (at level 61, r at next level, right associativity) : result_scope.

(** [FROM name]: the statement fails to prepare when the table is absent. *)
Definition from {A : Type} (name : string) (t : option (list A)) : result (list A) :=
  match t with
  | Some l => ok l
  | None => inl (DatabaseError (String.append "no such table: " name))
  end.

(** The table [pd.read_sql] returns: column names and rows of values. *)
Record DataFrame : Type := { columns : list string; rows : list (list value) }.

(** ** Relational combinators *)

Section Combinators.
Context {A B K : Type}.

(** [l JOIN r ON on]: the pairs that satisfy the condition. *)
Definition inner_join (on : A -> B -> bool) (l : list A) (r : list B) : list (A * B) :=
  flat_map (fun a => map (pair a) (filter (on a) r)) l.

(** [l LEFT JOIN r ON on]: a left row without a match is kept once, its
    right side all NULL. *)
Definition left_join (on : A -> B -> bool) (l : list A) (r : list B)
  : list (A * option B) :=
  flat_map (fun a =>
              match filter (on a) r with
              | [] => [(a, None)]
              | m => map (fun b => (a, Some b)) m
              end) l.

Variable key_dec : forall x y : K, {x = y} + {x <> y}.

Definition has_key (key : A -> K) (k : K) (a : A) : bool :=
  if key_dec (key a) k then true else false.

(** [GROUP BY key]: one group per distinct key, holding the rows with it. *)
Definition group_by (key : A -> K) (l : list A) : list (K * list A) :=
  map (fun k => (k, filter (has_key key k) l)) (nodup key_dec (map key l)).

(** [ORDER BY]: the rows sorted on the order [leb] by insertion.  It is
    applied to rows the engine has arranged, so that the order among rows
    that [leb] does not separate is the engine's, not the table's. *)
Variable leb : A -> A -> bool.

Fixpoint insert (x : A) (l : list A) : list A :=
  match l with
  | [] => [x]
  | y :: t => if leb x y then x :: l else y :: insert x t
  end.

Fixpoint order_by (l : list A) : list A :=
  match l with
  | [] => []
  | x :: t => insert x (order_by t)
  end.
End Combinators.

(** [LIMIT n]. *)
Definition limit {A : Type} (n : nat) (l : list A) : list A := firstn n l.

(** ** Aggregates *)

Definition non_null (l : list value) : list value :=
  filter (fun v => negb (is_null v)) l.

(** [COUNT(col)]: the rows where the column is not NULL. *)
Definition sql_count (l : list value) : Z := Z.of_nat (List.length (non_null l)).

(** [COUNT(DISTINCT col)]. *)
Definition sql_count_distinct (l : list value) : Z :=
  Z.of_nat (List.length (nodup value_eq_dec (non_null l))).

Definition present {A : Type} (l : list (option A)) : list A :=
  flat_map (fun o => match o with Some a => [a] | None => [] end) l.

Definition total (l : list Z) : Z := fold_right Z.add 0 l.

(** [SUM(col)] over an integer column, when it does not overflow: NULL when
    no row has a value. *)
Definition sql_sum (l : list (option Z)) : option Z :=
  match present l with
  | [] => None
  | zs => Some (total zs)
  end.

Definition int64_min : Z := - 2 ^ 63.
Definition int64_max : Z := 2 ^ 63 - 1.

Definition in_int64 (z : Z) : bool := (int64_min <=? z) && (z <=? int64_max).

(** [SUM] adds the values one by one, in the order in which the engine
    meets them; once the running sum leaves the 64-bit range the aggregate
    fails with [integer overflow]. *)
Fixpoint running_overflow (acc : Z) (l : list Z) : bool :=
  match l with
  | [] => false
  | x :: t => if in_int64 (acc + x) then running_overflow (acc + x) t else true
  end.

Definition sum_overflows (E : Engine) (l : list (option Z)) : bool :=
  running_overflow 0 (arrange E (present l)).

Definition numeric (E : Engine) (v : value) : option Q :=
  match v with
  | VNull => None
  | VInt n => Some (inject_Z n)
  | VText s => Some (text_to_real E s)
  end.

Definition Qtotal (l : list Q) : Q := fold_right Qplus 0%Q l.

(** [AVG(col)]: NULLs are skipped, text is converted; NULL on no value. *)
Definition sql_avg (E : Engine) (l : list value) : option Q :=
  match present (map (numeric E) l) with
  | [] => None
  | qs => Some (Qtotal qs / inject_Z (Z.of_nat (List.length qs)))%Q
  end.

(** [x > bound] where [x] may be NULL. *)
Definition gt_bound (x : option Q) (bound : Z) : bool :=
  match x with
  | Some q => negb (Qle_bool q (inject_Z bound))
  | None => false
  end.

(** [CAST(v AS REAL)]. *)
Definition cast_real (E : Engine) (v : value) : option Q := numeric E v.

(** Orders on sort keys; NULL is the smallest value. *)
Definition optQ_leb (a b : option Q) : bool :=
  match a, b with
  | None, _ => true
  | Some _, None => false
  | Some x, Some y => Qle_bool x y
  end.

Definition optZ_leb (a b : option Z) : bool :=
  match a, b with
  | None, _ => true
  | Some _, None => false
  | Some x, Some y => (x <=? y)%Z
  end.

Definition opt_value (o : option Z) : value :=
  match o with Some n => VInt n | None => VNull end.

Definition prod_eq_dec {A B : Type}
  (da : forall x y : A, {x = y} + {x <> y}) (db : forall x y : B, {x = y} + {x <> y})
  (p q : A * B) : {p = q} + {p <> q}.
Proof. decide equality. Defined.

Definition key2_dec := prod_eq_dec value_eq_dec value_eq_dec.
Definition key3_dec := prod_eq_dec key2_dec value_eq_dec.
Definition key5_dec := prod_eq_dec (prod_eq_dec key3_dec value_eq_dec) value_eq_dec.

(** [v IN (subquery)]. *)
Definition in_subquery (v : value) (l : list value) : bool := existsb (sql_eq v) l.

(** ** The ten reports, on rows *)

Section Reports.
Variable E : Engine.

(** Step 1: employees of the Boston office. *)
Definition select_boston (es : list Employee.row) (os : list Office.row)
  : list (value * value) :=
  arrange E
    (map (fun '(e, o) => (Employee.firstName e, Employee.lastName e))
       (filter (fun '(e, o) => sql_eq (Office.city o) (VText "Boston"))
          (inner_join (fun e o => sql_eq (Employee.officeCode e) (Office.officeCode o))
             es os))).

(** Step 2: offices whose left join with employees has a NULL
    [employeeNumber]. *)
Definition select_zero_emp (os : list Office.row) (es : list Employee.row)
  : list Office.row :=
  arrange E
    (map fst
       (filter (fun '(o, me) =>
                  match me with
                  | None => true
                  | Some e => is_null (Employee.employeeNumber e)
                  end)
          (left_join (fun o e => sql_eq (Office.officeCode o) (Employee.officeCode e))
             os es))).

(** Step 3: every employee with the city and state of the office, ordered
    by first then last name. *)
Definition select_employee (es : list Employee.row) (os : list Office.row)
  : list (value * value * value * value) :=
  order_by
    (fun '(f1, l1, _, _) '(f2, l2, _, _) =>
       leb_of (lex (value_compare f1 f2) (value_compare l1 l2)))
    (arrange E
       (map (fun '(e, mo) =>
               (Employee.firstName e, Employee.lastName e,
                match mo with Some o => Office.city o | None => VNull end,
                match mo with Some o => Office.state o | None => VNull end))
          (left_join (fun e o => sql_eq (Employee.officeCode e) (Office.officeCode o))
             es os))).

(** Step 4: customers whose left join with orders has a NULL
    [orderNumber], ordered by contact last name. *)
Definition select_contacts (cs : list Customer.row) (os : list Order.row)
  : list (value * value * value * value) :=
  order_by
    (fun '(_, l1, _, _) '(_, l2, _, _) => leb_of (value_compare l1 l2))
    (arrange E
       (map (fun '(c, _) =>
               (Customer.contactFirstName c, Customer.contactLastName c,
                Customer.phone c, Customer.salesRepEmployeeNumber c))
          (filter (fun '(c, mo) =>
                     match mo with
                     | None => true
                     | Some o => is_null (Order.orderNumber o)
                     end)
             (left_join
                (fun c o => sql_eq (Customer.customerNumber c) (Order.customerNumber o))
                cs os)))).

(** Step 5: the payments joined to their customers, before ordering. *)
Definition payment_join (cs : list Customer.row) (ps : list Payment.row)
  : list (value * value * value * value) :=
  map (fun '(c, p) =>
         (Customer.contactFirstName c, Customer.contactLastName c,
          Payment.amount p, Payment.paymentDate p))
    (inner_join (fun c p => sql_eq (Customer.customerNumber c) (Payment.customerNumber p))
       cs ps).

Definition payment_amount (r : value * value * value * value) : value :=
  let '(_, _, a, _) := r in a.

(** [ORDER BY CAST(p.amount AS REAL) DESC]. *)
Definition amount_desc (r1 r2 : value * value * value * value) : bool :=
  optQ_leb (cast_real E (payment_amount r2)) (cast_real E (payment_amount r1)).

Definition select_payment (cs : list Customer.row) (ps : list Payment.row)
  : list (value * value * value * value) :=
  order_by amount_desc (arrange E (payment_join cs ps)).

(** Step 6: employees joined to their customers, grouped per employee, kept
    when the average credit limit exceeds 90000; the four with the most
    customers. *)
Definition credit_join (es : list Employee.row) (cs : list Customer.row)
  : list (Employee.row * Customer.row) :=
  inner_join
    (fun e c => sql_eq (Employee.employeeNumber e) (Customer.salesRepEmployeeNumber c))
    es cs.

Definition employee_key (e : Employee.row) : value * value * value :=
  (Employee.employeeNumber e, Employee.firstName e, Employee.lastName e).

Definition avg_credit (g : list (Employee.row * Customer.row)) : option Q :=
  sql_avg E (map (fun '(_, c) => Customer.creditLimit c) g).

Definition num_customers (g : list (Employee.row * Customer.row)) : Z :=
  sql_count (map (fun '(_, c) => Customer.customerNumber c) g).

Definition credit_groups (es : list Employee.row) (cs : list Customer.row)
  : list (value * value * value * Z) :=
  map (fun '(k, g) => (k, num_customers g))
    (filter (fun '(_, g) => gt_bound (avg_credit g) 90000)
       (group_by key3_dec (fun '(e, _) => employee_key e) (credit_join es cs))).

Definition count_desc (r1 r2 : value * value * value * Z) : bool :=
  (snd r2 <=? snd r1)%Z.

Definition select_credit (es : list Employee.row) (cs : list Customer.row)
  : list (value * value * value * Z) :=
  limit 4 (order_by count_desc (arrange E (credit_groups es cs))).

(** Step 7: products joined to their order details, grouped by product
    name, ordered by total units descending. *)
Definition sold_join (ps : list Product.row) (ods : list OrderDetail.row)
  : list (Product.row * OrderDetail.row) :=
  inner_join (fun p o => sql_eq (Product.productCode p) (OrderDetail.productCode o))
    ps ods.

Definition numorders (g : list (Product.row * OrderDetail.row)) : Z :=
  sql_count (map (fun '(_, o) => OrderDetail.productCode o) g).

Definition totalunits (g : list (Product.row * OrderDetail.row)) : option Z :=
  sql_sum (map (fun '(_, o) => OrderDetail.quantityOrdered o) g).

Definition sold_groups (ps : list Product.row) (ods : list OrderDetail.row)
  : list (value * Z * option Z) :=
  map (fun '(name, g) => (name, numorders g, totalunits g))
    (group_by value_eq_dec (fun '(p, _) => Product.productName p) (sold_join ps ods)).

(** The [SUM] of some group overflows. *)
Definition units_overflow (ps : list Product.row) (ods : list OrderDetail.row) : bool :=
  existsb
    (fun '(_, g) =>
       sum_overflows E (map (fun '(_, o) => OrderDetail.quantityOrdered o) g))
    (group_by value_eq_dec (fun '(p, _) => Product.productName p) (sold_join ps ods)).

Definition units_desc (r1 r2 : value * Z * option Z) : bool :=
  optZ_leb (snd r2) (snd r1).

Definition select_product_sold (ps : list Product.row) (ods : list OrderDetail.row)
  : list (value * Z * option Z) :=
  order_by units_desc (arrange E (sold_groups ps ods)).

(** Step 8: distinct purchasers per product, most purchasers first. *)
Definition select_total_customers
  (ps : list Product.row) (ods : list OrderDetail.row) (os : list Order.row)
  : list (value * value * Z) :=
  order_by (fun r1 r2 => (snd r2 <=? snd r1)%Z)
    (arrange E
       (map (fun '(k, g) =>
               (k, sql_count_distinct (map (fun '(_, o) => Order.customerNumber o) g)))
          (group_by key2_dec
             (fun '(p, _, _) => (Product.productName p, Product.productCode p))
             (inner_join
                (fun '(_, od) o =>
                   sql_eq (OrderDetail.orderNumber od) (Order.orderNumber o))
                (sold_join ps ods) os)))).

(** Step 9: customers per office. *)
Definition select_customers
  (os : list Office.row) (es : list Employee.row) (cs : list Customer.row)
  : list (value * value * Z) :=
  arrange E
    (map (fun '(k, g) =>
            (k, sql_count (map (fun '(_, c) => Customer.customerNumber c) g)))
       (group_by key2_dec
          (fun '(o, _, _) => (Office.officeCode o, Office.city o))
          (inner_join
             (fun '(_, e) c =>
                sql_eq (Employee.employeeNumber e) (Customer.salesRepEmployeeNumber c))
             (inner_join
                (fun o e => sql_eq (Office.officeCode o) (Employee.officeCode e))
                os es)
             cs))).

(** Step 10, the common table expression: product codes bought by fewer
    than 20 distinct customers. *)
Definition demand_join (ods : list OrderDetail.row) (os : list Order.row)
  : list (OrderDetail.row * Order.row) :=
  inner_join (fun od o => sql_eq (OrderDetail.orderNumber od) (Order.orderNumber o))
    ods os.

Definition numpurchasers (g : list (OrderDetail.row * Order.row)) : Z :=
  sql_count_distinct (map (fun '(_, o) => Order.customerNumber o) g).

Definition low_demand_products (ods : list OrderDetail.row) (os : list Order.row)
  : list value :=
  map fst
    (filter (fun '(_, g) => (numpurchasers g <? 20)%Z)
       (group_by value_eq_dec (fun '(od, _) => OrderDetail.productCode od)
          (demand_join ods os))).

(** Step 10: the distinct employees who sold a low-demand product, by last
    then first name. *)
Definition select_under_20
  (es : list Employee.row) (ofs : list Office.row) (cs : list Customer.row)
  (os : list Order.row) (ods : list OrderDetail.row)
  : list (value * value * value * value * value) :=
  order_by
    (fun '(_, f1, l1, _, _) '(_, f2, l2, _, _) =>
       leb_of (lex (value_compare l1 l2) (value_compare f1 f2)))
    (arrange E
       (nodup key5_dec
          (map (fun '(e, o, _, _, _) =>
                  (Employee.employeeNumber e, Employee.firstName e, Employee.lastName e,
                   Office.city o, Office.officeCode o))
             (filter
                (fun '(_, _, _, _, od) =>
                   in_subquery (OrderDetail.productCode od) (low_demand_products ods os))
                (inner_join
                   (fun '(_, _, _, o) od =>
                      sql_eq (Order.orderNumber o) (OrderDetail.orderNumber od))
                   (inner_join
                      (fun '(_, _, c) o =>
                         sql_eq (Customer.customerNumber c) (Order.customerNumber o))
                      (inner_join
                         (fun '(e, _) c =>
                            sql_eq (Employee.employeeNumber e)
                              (Customer.salesRepEmployeeNumber c))
                         (inner_join
                            (fun e o =>
                               sql_eq (Employee.officeCode e) (Office.officeCode o))
                            es ofs)
                         cs)
                      os)
                   ods))))).
End Reports.

(** ** The reports as [pd.read_sql] tables *)

Definition frame {R : Type} (cols : list string) (cells : R -> list value) (l : list R)
  : DataFrame :=
  {| columns := cols; rows := map cells l |}.

Definition office_cells (o : Office.row) : list value :=
  [Office.officeCode o; Office.city o; Office.state o; Office.country o].

Definition payment_cells (r : value * value * value * value) : list value :=
  let '(f, l, a, d) := r in [f; l; a; d].

Definition credit_cells (r : value * value * value * Z) : list value :=
  let '(n, f, l, k) := r in [n; f; l; VInt k].

Definition sold_cells (r : value * Z * option Z) : list value :=
  let '(n, k, u) := r in [n; VInt k; opt_value u].

Local Open Scope result_scope.

Section Frames.
Variable E : Engine.

Definition df_boston (db : database) : result DataFrame :=
  es <- from "employees" (employees db) ;;
  os <- from "offices" (offices db) ;;
  ok (frame ["firstName"; "lastName"] (fun '(f, l) => [f; l]) (select_boston E es os)).

Definition df_zero_emp (db : database) : result DataFrame :=
  os <- from "offices" (offices db) ;;
  es <- from "employees" (employees db) ;;
  ok (frame ["officeCode"; "city"; "state"; "country"] office_cells
        (select_zero_emp E os es)).

Definition df_employee (db : database) : result DataFrame :=
  es <- from "employees" (employees db) ;;
  os <- from "offices" (offices db) ;;
  ok (frame ["firstName"; "lastName"; "city"; "state"]
        (fun '(f, l, c, s) => [f; l; c; s]) (select_employee E es os)).

Definition df_contacts (db : database) : result DataFrame :=
  cs <- from "customers" (customers db) ;;
  os <- from "orders" (orders db) ;;
  ok (frame ["contactFirstName"; "contactLastName"; "phone"; "salesRepEmployeeNumber"]
        (fun '(f, l, p, r) => [f; l; p; r]) (select_contacts E cs os)).

Definition df_payment (db : database) : result DataFrame :=
  cs <- from "customers" (customers db) ;;
  ps <- from "payments" (payments db) ;;
  ok (frame ["contactFirstName"; "contactLastName"; "amount"; "paymentDate"]
        payment_cells (select_payment E cs ps)).

Definition df_credit (db : database) : result DataFrame :=
  es <- from "employees" (employees db) ;;
  cs <- from "customers" (customers db) ;;
  ok (frame ["employeeNumber"; "firstName"; "lastName"; "num_customers"]
        credit_cells (select_credit E es cs)).

Definition df_product_sold (db : database) : result DataFrame :=
  ps <- from "products" (products db) ;;
  ods <- from "orderdetails" (orderdetails db) ;;
  if units_overflow E ps ods then inl (DatabaseError "integer overflow")
  else ok (frame ["productName"; "numorders"; "totalunits"]
             sold_cells (select_product_sold E ps ods)).

Definition df_total_customers (db : database) : result DataFrame :=
  ps <- from "products" (products db) ;;
  ods <- from "orderdetails" (orderdetails db) ;;
  os <- from "orders" (orders db) ;;
  ok (frame ["productName"; "productCode"; "numpurchasers"]
        (fun '(n, c, k) => [n; c; VInt k]) (select_total_customers E ps ods os)).

Definition df_customers (db : database) : result DataFrame :=
  os <- from "offices" (offices db) ;;
  es <- from "employees" (employees db) ;;
  cs <- from "customers" (customers db) ;;
  ok (frame ["officeCode"; "city"; "n_customers"]
        (fun '(o, c, k) => [o; c; VInt k]) (select_customers E os es cs)).

Definition df_under_20 (db : database) : result DataFrame :=
  es <- from "employees" (employees db) ;;
  ofs <- from "offices" (offices db) ;;
  cs <- from "customers" (customers db) ;;
  os <- from "orders" (orders db) ;;
  ods <- from "orderdetails" (orderdetails db) ;;
  ok (frame ["employeeNumber"; "firstName"; "lastName"; "city"; "officeCode"]
        (fun '(n, f, l, c, o) => [n; f; l; c; o]) (select_under_20 E es ofs cs os ods)).

(** The catalogue [sqlite_master], one row per table of the schema; the
    script reads it whole and discards the result, then reads the names. *)
Definition table_names (db : database) : list string :=
  let has {A : Type} (n : string) (t : option (list A)) : list string :=
    match t with Some _ => [n] | None => [] end in
  has "offices" (offices db) ++ has "employees" (employees db)
  ++ has "customers" (customers db) ++ has "orders" (orders db)
  ++ has "orderdetails" (orderdetails db) ++ has "products" (products db)
  ++ has "payments" (payments db).

Definition sqlite_master (db : database) : result DataFrame :=
  ok (frame ["type"; "name"; "tbl_name"]
        (fun n => [VText "table"; VText n; VText n]) (arrange E (table_names db))).

Definition df_tables (db : database) : result DataFrame :=
  ok (frame ["name"] (fun n => [VText n]) (arrange E (table_names db))).
End Frames.

Local Close Scope result_scope.

(** ** The process: connection, module globals, standard output *)

(** What the file system holds under a path.  A file that exists but is not
    a database, on which the first read fails with [file is not a database],
    has no state here: what is proved about a run is proved state by state. *)
Inductive file_state : Type :=
| Missing                      (* no such file *)
| Unopenable                   (* a file the process may not open *)
| Stored (db : database).      (* a database file *)

Inductive connection : Type :=
| NoConnection
| Open (path : string) (db : database)
| Closed (path : string).

Record process : Type := {
  conn : connection;                      (* the module global [conn] *)
  connect_calls : list string;            (* paths given to [sqlite3.connect] *)
  created : list string;                  (* files created by the run *)
  globals : list (string * DataFrame);    (* tables bound to module names *)
  stdout : list DataFrame                 (* tables printed *)
}.

Definition start : process :=
  {| conn := NoConnection; connect_calls := []; created := []; globals := [];
     stdout := [] |}.

(** Statements run in sequence; an exception ends the run where it is
    raised, with the state reached so far. *)
Definition M (A : Type) : Type := process -> result A * process.

Definition ret {A : Type} (a : A) : M A := fun p => (inr a, p).

Definition raise {A : Type} (e : exn) : M A := fun p => (inl e, p).

Definition bind {A B : Type} (m : M A) (f : A -> M B) : M B :=
  fun p =>
    match m p with
    | (inl e, p') => (inl e, p')
    | (inr a, p') => f a p'
    end.

Declare Scope py_scope.
Delimit Scope py_scope with py.
Notation "x <- m ;; k" := (bind m (fun x => k))
  (at level 61, m at next level, right associativity) : py_scope.
Notation "m ;; k" := (bind m (fun _ => k))
  (at level 61, right associativity) : py_scope.

Local Open Scope py_scope.

(** [sqlite3.connect(path)], the standard library's call, by its documented
    behaviour: a missing file is created as an empty database and opened, a
    file that cannot be opened raises [OperationalError]. *)
Definition sqlite3_connect (fs : string -> file_state) (path : string) : M unit :=
  fun p =>
    let called := connect_calls p ++ [path] in
    match fs path with
    | Stored db =>
        (inr tt, {| conn := Open path db; connect_calls := called;
                    created := created p; globals := globals p; stdout := stdout p |})
    | Missing =>
        (inr tt, {| conn := Open path empty_database; connect_calls := called;
                    created := created p ++ [path]; globals := globals p;
                    stdout := stdout p |})
    | Unopenable =>
        (inl (OperationalError "unable to open database file"),
         {| conn := conn p; connect_calls := called; created := created p;
            globals := globals p; stdout := stdout p |})
    end.

(** [pd.read_sql(sql, conn)] for a [SELECT]: evaluates the query on the
    database behind the connection and writes nothing. *)
Definition read_sql (sql : database -> result DataFrame) : M DataFrame :=
  fun p =>
    match conn p with
    | Open _ db => (sql db, p)
    | Closed _ => (inl (ProgrammingError "Cannot operate on a closed database."), p)
    | NoConnection => (inl (NameError "name 'conn' is not defined"), p)
    end.

(** [name = value] at module level. *)
Definition assign (name : string) (df : DataFrame) : M unit :=
  fun p =>
    (inr tt, {| conn := conn p; connect_calls := connect_calls p; created := created p;
                globals := globals p ++ [(name, df)]; stdout := stdout p |}).

Definition print (df : DataFrame) : M unit :=
  fun p =>
    (inr tt, {| conn := conn p; connect_calls := connect_calls p; created := created p;
                globals := globals p; stdout := stdout p ++ [df] |}).

(** [conn.close()]. *)
Definition conn_close : M unit :=
  fun p =>
    match conn p with
    | Open path _ | Closed path =>
        (inr tt, {| conn := Closed path; connect_calls := connect_calls p;
                    created := created p; globals := globals p; stdout := stdout p |})
    | NoConnection => (inl (NameError "name 'conn' is not defined"), p)
    end.

(** [name = pd.read_sql(sql, conn)]. *)
Definition assign_sql (name : string) (sql : database -> result DataFrame) : M unit :=
  df <- read_sql sql ;; assign name df.

(** ** The script *)

(** The one file name the script mentions. *)
Definition database_path : string := "data.sqlite".

(** [main.py], statement by statement. *)
Definition main (E : Engine) (fs : string -> file_state) : M unit :=
  sqlite3_connect fs database_path ;;
  read_sql (sqlite_master E) ;;
  tables <- read_sql (df_tables E) ;;
  assign "df_tables" tables ;;
  print tables ;;
  assign_sql "df_boston" (df_boston E) ;;
  assign_sql "df_zero_emp" (df_zero_emp E) ;;
  assign_sql "df_employee" (df_employee E) ;;
  assign_sql "df_contacts" (df_contacts E) ;;
  assign_sql "df_payment" (df_payment E) ;;
  assign_sql "df_credit" (df_credit E) ;;
  assign_sql "df_product_sold" (df_product_sold E) ;;
  assign_sql "df_total_customers" (df_total_customers E) ;;
  assign_sql "df_customers" (df_customers E) ;;
  assign_sql "df_under_20" (df_under_20 E) ;;
  conn_close.

(** What the operating system hands to a run: arguments, environment and
    the files of the working directory. *)
Record invocation : Type := {
  argv : list string;
  environ : list (string * string);
  files : string -> file_state
}.

Definition run (E : Engine) (inv : invocation) : result unit * process :=
  main E (files inv) start.

(** The ten steps in source order, each with the name it binds. *)
Definition step : Type := (string * (database -> result DataFrame))%type.

Definition script (E : Engine) : list step :=
  [ ("df_boston", df_boston E); ("df_zero_emp", df_zero_emp E);
    ("df_employee", df_employee E); ("df_contacts", df_contacts E);
    ("df_payment", df_payment E); ("df_credit", df_credit E);
    ("df_product_sold", df_product_sold E);
    ("df_total_customers", df_total_customers E);
    ("df_customers", df_customers E); ("df_under_20", df_under_20 E) ].

(** A run of steps followed by the rest of the program. *)
Fixpoint run_script (steps : list step) (rest : M unit) : M unit :=
  match steps with
  | [] => rest
  | (name, sql) :: more => assign_sql name sql ;; run_script more rest
  end.

(** The catalogue reads between the connect and the first step. *)
Definition prelude (E : Engine) (rest : M unit) : M unit :=
  read_sql (sqlite_master E) ;;
  tables <- read_sql (df_tables E) ;;
  assign "df_tables" tables ;;
  print tables ;;
  rest.

Definition is_closed (p : process) : bool :=
  match conn p with Closed _ => true | _ => false end.

Definition was_opened (p : process) : Prop :=
  match conn p with NoConnection => False | _ => True end.

Definition bound (name : string) (p : process) : Prop :=
  In name (map fst (globals p)).

(** * Properties *)

(** ** Ordering *)

Section OrderByFacts.
Context {A : Type} (leb : A -> A -> bool).

Let le (x y : A) : Prop := leb x y = true.

Lemma insert_perm (x : A) (l : list A) : Permutation (insert leb x l) (x :: l).
Proof.
  induction l as [|y t IH]; simpl.
  - apply Permutation_refl.
  - destruct (leb x y).
    + apply Permutation_refl.
    + eapply perm_trans; [apply perm_skip, IH | apply perm_swap].
Qed.

Lemma order_by_perm (l : list A) : Permutation (order_by leb l) l.
Proof.
  induction l as [|x t IH]; simpl.
  - constructor.
  - eapply perm_trans; [apply insert_perm | now apply perm_skip].
Qed.

Hypothesis leb_total : forall x y, leb x y = true \/ leb y x = true.

Lemma insert_sorted (x : A) (l : list A) : Sorted le l -> Sorted le (insert leb x l).
Proof.
  induction 1 as [|y t Ht IH Hhd]; simpl.
  - repeat constructor.
  - destruct (leb x y) eqn:Hxy.
    + constructor; [now constructor | now constructor].
    + constructor; [exact IH|].
      assert (Hyx : le y x) by (destruct (leb_total x y); [congruence | assumption]).
      destruct t as [|z t']; simpl.
      * now constructor.
      * destruct (leb x z); constructor; [exact Hyx | now inversion Hhd].
Qed.

Lemma order_by_sorted (l : list A) : Sorted le (order_by leb l).
Proof.
  induction l as [|x t IH]; simpl; [constructor | now apply insert_sorted].
Qed.

Hypothesis leb_trans :
  forall x y z, leb x y = true -> leb y z = true -> leb x z = true.

Lemma order_by_strongly_sorted (l : list A) : StronglySorted le (order_by leb l).
Proof.
  apply Sorted_StronglySorted; [|apply order_by_sorted].
  intros x y z. apply leb_trans.
Qed.
End OrderByFacts.





(** ** Joins and groups *)

Section JoinFacts.
Context {A B : Type}.

Lemma in_inner_join (on : A -> B -> bool) (l : list A) (r : list B) (a : A) (b : B) :
  In (a, b) (inner_join on l r) <-> In a l /\ In b r /\ on a b = true.
Proof.
  unfold inner_join. rewrite in_flat_map. split.
  - intros (a' & Ha & Hin). apply in_map_iff in Hin as (b' & Heq & Hb).
    injection Heq as -> ->. apply filter_In in Hb as [Hb Hon]. auto.
  - intros (Ha & Hb & Hon). exists a. split; [exact Ha|].
    apply in_map. apply filter_In. auto.
Qed.

Lemma in_left_join_none (on : A -> B -> bool) (l : list A) (r : list B) (a : A) :
  In (a, None) (left_join on l r) <-> In a l /\ forall b, In b r -> on a b = false.
Proof.
  unfold left_join. rewrite in_flat_map. split.
  - intros (a' & Ha & Hin). destruct (filter (on a') r) as [|b m] eqn:Hf.
    + destruct Hin as [Heq|[]]. injection Heq as ->. split; [exact Ha|].
      intros b Hb. destruct (on a b) eqn:Hon; [|reflexivity].
      assert (Hin : In b (filter (on a) r)) by (apply filter_In; auto).
      rewrite Hf in Hin. destruct Hin.
    + apply in_map_iff in Hin as (b' & Heq & _). discriminate.
  - intros (Ha & Hno). exists a. split; [exact Ha|].
    destruct (filter (on a) r) as [|b m] eqn:Hf; [now left|].
    assert (Hin : In b (filter (on a) r)) by (rewrite Hf; now left).
    apply filter_In in Hin as [Hb Hon]. rewrite (Hno b Hb) in Hon. discriminate.
Qed.

Lemma in_left_join_some (on : A -> B -> bool) (l : list A) (r : list B) (a : A) (b : B) :
  In (a, Some b) (left_join on l r) <-> In a l /\ In b r /\ on a b = true.
Proof.
  unfold left_join. rewrite in_flat_map. split.
  - intros (a' & Ha & Hin). destruct (filter (on a') r) as [|b0 m] eqn:Hf.
    + destruct Hin as [Heq|[]]. discriminate.
    + apply in_map_iff in Hin as (b' & Heq & Hb). injection Heq as -> ->.
      rewrite <- Hf in Hb. apply filter_In in Hb as [Hb Hon]. auto.
  - intros (Ha & Hb & Hon). exists a. split; [exact Ha|].
    assert (Hin : In b (filter (on a) r)) by (apply filter_In; auto).
    destruct (filter (on a) r) as [|b0 m]; [destruct Hin|].
    apply in_map_iff. now exists b.
Qed.
End JoinFacts.

Section GroupFacts.
Context {A K : Type} (key_dec : forall x y : K, {x = y} + {x <> y}) (key : A -> K).

Lemma has_key_true (k : K) (a : A) : has_key key_dec key k a = true <-> key a = k.
Proof. unfold has_key. destruct (key_dec (key a) k); split; congruence. Qed.

Lemma in_group_by (l : list A) (k : K) (g : list A) :
  In (k, g) (group_by key_dec key l) <->
  In k (map key l) /\ g = filter (has_key key_dec key k) l.
Proof.
  unfold group_by. rewrite in_map_iff. split.
  - intros (k' & Heq & Hk). injection Heq as -> <-.
    apply nodup_In in Hk. auto.
  - intros (Hk & ->). exists k. split; [reflexivity | now apply nodup_In].
Qed.

Lemma group_by_keys (l : list A) :
  map fst (group_by key_dec key l) = nodup key_dec (map key l).
Proof. unfold group_by. rewrite map_map. simpl. apply map_id. Qed.

Lemma group_by_keys_nodup (l : list A) : NoDup (map fst (group_by key_dec key l)).
Proof. rewrite group_by_keys. apply NoDup_nodup. Qed.
End GroupFacts.

Lemma NoDup_map_filter {X Y : Type} (keep : X -> bool) (g : X -> Y) (xs : list X)
  (Hnd : NoDup (map g xs)) : NoDup (map g (filter keep xs)).
Proof.
  induction xs as [|a t IH]; simpl in *; [constructor|].
  inversion Hnd as [|? ? Hnot Hnd']; subst.
  destruct (keep a); simpl; [constructor|]; auto.
  intros Hin. apply Hnot. apply in_map_iff in Hin as (x & Hx & Hin).
  apply filter_In in Hin as [Hin _]. apply in_map_iff. now exists x.
Qed.


(** ** Step 2: offices without employees *)

(** Employee [e] references office [o]. *)
Definition works_in (e : Employee.row) (o : Office.row) : bool :=
  sql_eq (Office.officeCode o) (Employee.officeCode e).

Definition office (code city state country : value) : Office.row :=
  {| Office.officeCode := code; Office.city := city; Office.state := state;
     Office.country := country |}.

Definition employee (number : Z) (first last : string) (code : value) : Employee.row :=
  {| Employee.employeeNumber := VInt number; Employee.firstName := VText first;
     Employee.lastName := VText last; Employee.officeCode := code |}.

Definition with_offices (os : list Office.row) (es : list Employee.row) : database :=
  {| offices := Some os; employees := Some es; customers := Some []; orders := Some [];
     orderdetails := Some []; products := Some []; payments := Some [] |}.

Definition boston : Office.row := office (VText "1") (VText "Boston") (VText "MA") (VText "USA").
Definition paris : Office.row := office (VText "4") (VText "Paris") VNull (VText "France").
Definition two_offices : list Office.row := [boston; paris].
Definition boston_staff : list Employee.row :=
  [employee 1002 "Diane" "Murphy" (VText "1"); employee 1056 "Mary" "Patterson" (VText "1")].

(** C7. Step 2 returns exactly the offices without employees: no employee of
    the fixture references the office code of a returned office, and every
    office that is not returned is referenced by at least one employee.
    [employeeNumber] is the key of its table, hence never NULL. *)
Theorem zero_emp_exact (E : Engine) (db : database)
  (os : list Office.row) (es : list Employee.row) :
  offices db = Some os ->
  employees db = Some es ->
  (forall e, In e es -> Employee.employeeNumber e <> VNull) ->
  df_zero_emp E db
  = ok (frame ["officeCode"; "city"; "state"; "country"] office_cells
          (select_zero_emp E os es))
  /\ (forall o, In o (select_zero_emp E os es) ->
        In o os /\ forall e, In e es -> works_in e o = false)
  /\ (forall o, In o os -> ~ In o (select_zero_emp E os es) ->
        exists e, In e es /\ works_in e o = true).
Proof.
  intros Hos Hes Hkey. unfold df_zero_emp. rewrite Hos, Hes. simpl.
  split; [reflexivity|]. unfold select_zero_emp, works_in. split.
  - intros o Ho. apply (Permutation_in _ (arrange_perm E _ _)) in Ho.
    apply in_map_iff in Ho as ([o' me] & Heq & Hin). simpl in Heq. subst o'.
    apply filter_In in Hin as [Hin Hnull]. destruct me as [e|].
    + apply in_left_join_some in Hin as (_ & He & _).
      destruct (Employee.employeeNumber e) eqn:Hn; try discriminate.
      now elim (Hkey e He).
    + now apply in_left_join_none in Hin.
  - intros o Ho Hout.
    destruct (existsb (fun e => sql_eq (Office.officeCode o) (Employee.officeCode e)) es)
      eqn:Hex.
    + apply existsb_exists in Hex as (e & He & Hon). now exists e.
    + elim Hout. apply (Permutation_in _ (Permutation_sym (arrange_perm E _ _))).
      apply in_map_iff. exists (o, None). split; [reflexivity|].
      apply filter_In. split; [|reflexivity].
      apply in_left_join_none. split; [exact Ho|].
      intros e He. destruct (sql_eq _ _) eqn:Hon; [|reflexivity].
      assert (Hex' : existsb (fun e => sql_eq (Office.officeCode o) (Employee.officeCode e))
                       es = true) by (apply existsb_exists; now exists e).
      congruence.
Qed.

Lemma zero_emp_exact_witness :
  (forall e, In e boston_staff -> Employee.employeeNumber e <> VNull)
  /\ select_zero_emp rowid_engine two_offices boston_staff = [paris]
  /\ (forall e, In e boston_staff -> works_in e paris = false)
  /\ (exists e, In e boston_staff /\ works_in e boston = true).
Proof.
  assert (Hkey : forall e, In e boston_staff -> Employee.employeeNumber e <> VNull).
  { intros e [<-|[<-|[]]]; discriminate. }
  destruct (zero_emp_exact rowid_engine (with_offices two_offices boston_staff)
              two_offices boston_staff eq_refl eq_refl Hkey) as (_ & Hin & Hout).
  split; [exact Hkey|]. split; [reflexivity|]. split.
  - apply (Hin paris). now left.
  - apply (Hout boston); [now left|].
    intros [Heq|[]]. discriminate.
Defined.

(** ** Step 5: payments by amount *)

(** Numeric order with NULL below every number. *)
Definition optQ_le (a b : option Q) : Prop :=
  match a, b with
  | None, _ => True
  | Some _, None => False
  | Some x, Some y => (x <= y)%Q
  end.

Definition optQ_eqb (a b : option Q) : bool :=
  match a, b with
  | None, None => true
  | Some x, Some y => Qeq_bool x y
  | _, _ => false
  end.

Lemma optQ_leb_le (a b : option Q) : optQ_leb a b = true <-> optQ_le a b.
Proof.
  destruct a as [x|], b as [y|]; simpl; try tauto.
  - apply Qle_bool_iff.
  - split; [discriminate | contradiction].
Qed.

Lemma optQ_leb_total (a b : option Q) : optQ_leb a b = true \/ optQ_leb b a = true.
Proof.
  rewrite !optQ_leb_le. destruct a as [x|], b as [y|]; simpl; auto.
  destruct (Qlt_le_dec x y) as [H|H]; [left; now apply Qlt_le_weak | now right].
Qed.

Lemma optQ_leb_trans (a b c : option Q) :
  optQ_leb a b = true -> optQ_leb b c = true -> optQ_leb a c = true.
Proof.
  rewrite !optQ_leb_le. destruct a as [x|], b as [y|], c as [z|]; simpl; try tauto.
  apply Qle_trans.
Qed.

Lemma StronglySorted_impl {A : Type} (R S : A -> A -> Prop) (l : list A) :
  (forall x y, R x y -> S x y) -> StronglySorted R l -> StronglySorted S l.
Proof.
  intros HRS. induction 1 as [|x t Ht IH Hx]; constructor; [exact IH|].
  eapply Forall_impl; [|exact Hx]. intros y. apply HRS.
Qed.

(** The numeric amount of a report row. *)
Definition real_amount (E : Engine) (r : value * value * value * value) : option Q :=
  cast_real E (payment_amount r).

(** The rows whose numeric amount equals [k]. *)
Definition same_amount (E : Engine) (k : option Q) (r : value * value * value * value)
  : bool :=
  optQ_eqb (real_amount E r) k.

(** The rule of the claim: rows of equal numeric amount come in the order in
    which the tables hold them. *)
Definition ties_in_insertion_order
  (E : Engine) (cs : list Customer.row) (ps : list Payment.row) : Prop :=
  forall k, filter (same_amount E k) (select_payment E cs ps)
            = filter (same_amount E k) (payment_join cs ps).

Definition customer (number : Z) (first last : string) (rep credit : value) : Customer.row :=
  {| Customer.customerNumber := VInt number; Customer.contactFirstName := VText first;
     Customer.contactLastName := VText last; Customer.phone := VNull;
     Customer.salesRepEmployeeNumber := rep; Customer.creditLimit := credit |}.

Definition payment (number : Z) (amount date : string) : Payment.row :=
  {| Payment.customerNumber := VInt number; Payment.amount := VText amount;
     Payment.paymentDate := VText date |}.

Definition with_payments (cs : list Customer.row) (ps : list Payment.row) : database :=
  {| offices := Some []; employees := Some []; customers := Some cs; orders := Some [];
     orderdetails := Some []; products := Some []; payments := Some ps |}.

Definition one_customer : list Customer.row :=
  [customer 103 "Carine" "Schmitt" VNull (VInt 21000)].

(** Two payments of the same numeric amount and a larger one. *)
Definition tied_payments : list Payment.row :=
  [payment 103 "5.50" "2003-06-05"; payment 103 "5.5" "2004-10-19";
   payment 103 "14571.44" "2004-12-18"].

Definition two_customers : list Customer.row :=
  [customer 103 "Carine" "Schmitt" VNull (VInt 21000);
   customer 112 "Jean" "King" VNull (VInt 71800)].

(** C6, as stated, fails: the query has one sort key, [CAST(p.amount AS REAL)],
    and says nothing about rows that agree on it.  The two payments of
    amount 5.5 are returned with the one entered second first by an engine
    that resolves the tie that way, so rows of equal amount need not come
    in insertion order; another engine returns them the other way round. *)
Lemma payment_ties_counterexample :
  select_payment reverse_engine one_customer tied_payments
  = [ (VText "Carine", VText "Schmitt", VText "14571.44", VText "2004-12-18");
      (VText "Carine", VText "Schmitt", VText "5.5", VText "2004-10-19");
      (VText "Carine", VText "Schmitt", VText "5.50", VText "2003-06-05") ]
  /\ ~ ties_in_insertion_order reverse_engine one_customer tied_payments
  /\ select_payment rowid_engine one_customer tied_payments
     <> select_payment reverse_engine one_customer tied_payments.
Proof.
  split; [reflexivity|]. split.
  - intros H. specialize (H (Some (Qmake 11 2))). vm_compute in H. discriminate.
  - vm_compute. discriminate.
Qed.

(** C6, amended. Step 5 returns the joined customer-payment rows, each
    once, sorted by the numeric cast of [amount], largest first and NULL
    last.  The order among rows of equal numeric amount is not fixed by the
    query; it is the engine's. *)
Theorem payment_sorted (E : Engine) (db : database)
  (cs : list Customer.row) (ps : list Payment.row) :
  customers db = Some cs ->
  payments db = Some ps ->
  df_payment E db
  = ok (frame ["contactFirstName"; "contactLastName"; "amount"; "paymentDate"]
          payment_cells (select_payment E cs ps))
  /\ Permutation (select_payment E cs ps) (payment_join cs ps)
  /\ StronglySorted (fun r1 r2 => optQ_le (real_amount E r2) (real_amount E r1))
       (select_payment E cs ps).
Proof.
  intros Hcs Hps. unfold df_payment. rewrite Hcs, Hps. simpl.
  split; [reflexivity|]. split.
  - unfold select_payment.
    eapply perm_trans; [apply order_by_perm | apply arrange_perm].
  - unfold select_payment.
    eapply StronglySorted_impl; [|apply order_by_strongly_sorted].
    + intros x y Hxy. apply optQ_leb_le. exact Hxy.
    + intros x y. apply optQ_leb_total.
    + intros x y z Hxy Hyz. unfold amount_desc in *.
      exact (optQ_leb_trans _ _ _ Hyz Hxy).
Qed.

Lemma payment_sorted_witness :
  customers (with_payments one_customer tied_payments) = Some one_customer
  /\ payments (with_payments one_customer tied_payments) = Some tied_payments
  /\ Permutation (select_payment reverse_engine one_customer tied_payments)
       (payment_join one_customer tied_payments)
  /\ StronglySorted (fun r1 r2 => optQ_le (real_amount reverse_engine r2)
                                    (real_amount reverse_engine r1))
       (select_payment reverse_engine one_customer tied_payments).
Proof.
  destruct (payment_sorted reverse_engine (with_payments one_customer tied_payments)
              one_customer tied_payments eq_refl eq_refl) as (_ & Hp & Hs).
  split; [reflexivity|]. split; [reflexivity|]. split; [exact Hp | exact Hs].
Defined.

(** ** Step 6: employees by customer count, average credit limit above 90000 *)






Section CreditGroups.
Variable cs : list Customer.row.











End CreditGroups.








(** ** Step 7: units sold per product name *)

(** The order details that reference a product. *)
Definition details_of (p : Product.row) (ods : list OrderDetail.row) : list OrderDetail.row :=
  filter (fun o => sql_eq (Product.productCode p) (OrderDetail.productCode o)) ods.

(** The order details that reference the products of a given name, product
    by product. *)
Definition name_details (name : value) (ps : list Product.row) (ods : list OrderDetail.row)
  : list OrderDetail.row :=
  flat_map (fun p => if value_eq_dec (Product.productName p) name
                     then details_of p ods else []) ps.

(** The report row for a name and the order details counted under it. *)
Definition sold_row (name : value) (ds : list OrderDetail.row) : value * Z * option Z :=
  (name, Z.of_nat (List.length ds), sql_sum (map OrderDetail.quantityOrdered ds)).

Definition sold_name (r : value * Z * option Z) : value := fst (fst r).

Definition optZ_le (a b : option Z) : Prop :=
  match a, b with
  | None, _ => True
  | Some _, None => False
  | Some x, Some y => (x <= y)%Z
  end.

Lemma optZ_leb_le (a b : option Z) : optZ_leb a b = true <-> optZ_le a b.
Proof.
  destruct a as [x|], b as [y|]; simpl; try tauto.
  - apply Z.leb_le.
  - split; [discriminate | contradiction].
Qed.

Lemma units_desc_total (r1 r2 : value * Z * option Z) :
  units_desc r1 r2 = true \/ units_desc r2 r1 = true.
Proof.
  unfold units_desc. rewrite !optZ_leb_le.
  destruct (snd r1) as [x|], (snd r2) as [y|]; simpl; auto. lia.
Qed.

Lemma units_desc_trans (r1 r2 r3 : value * Z * option Z) :
  units_desc r1 r2 = true -> units_desc r2 r3 = true -> units_desc r1 r3 = true.
Proof.
  unfold units_desc. rewrite !optZ_leb_le.
  destruct (snd r1) as [x|], (snd r2) as [y|], (snd r3) as [z|]; simpl; try tauto. lia.
Qed.

(** In a list with unique keys, selecting by the key of a member yields that
    member alone. *)
Lemma filter_unique_key {A K : Type} (key_dec : forall x y : K, {x = y} + {x <> y})
  (key : A -> K) (l : list A) (r : A) :
  NoDup (map key l) -> In r l -> filter (has_key key_dec key (key r)) l = [r].
Proof.
  induction l as [|a t IH]; intros Hnd Hr; [destruct Hr|].
  simpl in *. inversion Hnd as [|? ? Hnot Hnd']; subst. destruct Hr as [->|Hr].
  - replace (has_key key_dec key (key r) r) with true
      by (symmetry; now apply has_key_true).
    f_equal. destruct (filter (has_key key_dec key (key r)) t) as [|b m] eqn:Hf;
      [reflexivity|].
    assert (Hb : In b (filter (has_key key_dec key (key r)) t)) by (rewrite Hf; now left).
    apply filter_In in Hb as [Hb Hk]. apply has_key_true in Hk.
    elim Hnot. rewrite <- Hk. now apply in_map.
  - destruct (has_key key_dec key (key r) a) eqn:Hk; [|now apply IH].
    apply has_key_true in Hk. elim Hnot. rewrite Hk. now apply in_map.
Qed.

Lemma filter_perm_singleton {A : Type} (p : A -> bool) (l l' : list A) (r : A) :
  Permutation l l' -> filter p l' = [r] -> filter p l = [r].
Proof.
  intros Hperm Hf. apply Permutation_length_1_inv. rewrite <- Hf.
  apply Permutation_sym. clear Hf.
  induction Hperm as [|x l1 l2 _ IH|x y l1|l1 l2 l3 _ IH1 _ IH2]; simpl.
  - constructor.
  - destruct (p x); [now constructor | exact IH].
  - destruct (p x), (p y); try apply Permutation_refl. apply perm_swap.
  - eapply perm_trans; eassumption.
Qed.

Section SoldGroups.
Variable ods : list OrderDetail.row.

Let by_name (x : Product.row * OrderDetail.row) : value :=
  let '(p, _) := x in Product.productName p.

Let lines (p : Product.row) : list (Product.row * OrderDetail.row) :=
  map (pair p) (details_of p ods).

Lemma sold_join_lines (ps : list Product.row) : sold_join ps ods = flat_map lines ps.
Proof. reflexivity. Qed.

Lemma group_of_lines (name : value) (p : Product.row) :
  map snd (filter (has_key value_eq_dec by_name name) (lines p))
  = if value_eq_dec (Product.productName p) name then details_of p ods else [].
Proof.
  unfold lines. destruct (value_eq_dec (Product.productName p) name) as [Heq|Hne].
  - induction (details_of p ods) as [|o t IH]; [reflexivity|].
    cbn [map filter].
    replace (has_key value_eq_dec by_name name (p, o)) with true
      by (symmetry; now apply has_key_true).
    cbn [map snd]. now rewrite IH.
  - induction (details_of p ods) as [|o t IH]; [reflexivity|].
    cbn [map filter].
    destruct (has_key value_eq_dec by_name name (p, o)) eqn:Hk; [|exact IH].
    apply has_key_true in Hk. now elim Hne.
Qed.

(** The group of a name holds the order details of the products so named. *)
Lemma sold_group_details (name : value) (ps : list Product.row) :
  map snd (filter (has_key value_eq_dec by_name name) (sold_join ps ods))
  = name_details name ps ods.
Proof.
  rewrite sold_join_lines. unfold name_details.
  induction ps as [|p t IH]; [reflexivity|].
  simpl. now rewrite filter_app, map_app, group_of_lines, IH.
Qed.

Lemma sold_group_codes (name : value) (ps : list Product.row) :
  Forall (fun x => is_null (OrderDetail.productCode (snd x)) = false)
    (filter (has_key value_eq_dec by_name name) (sold_join ps ods)).
Proof.
  apply Forall_forall. intros [p o] Hin. apply filter_In in Hin as [Hin _].
  apply in_inner_join in Hin as (_ & _ & Hon). simpl.
  apply sql_eq_not_null in Hon as [_ Ho].
  now destruct (OrderDetail.productCode o).
Qed.

Lemma numorders_length (g : list (Product.row * OrderDetail.row)) :
  Forall (fun x => is_null (OrderDetail.productCode (snd x)) = false) g ->
  numorders g = Z.of_nat (List.length (map snd g)).
Proof.
  unfold numorders, sql_count, non_null. intros H. f_equal. rewrite length_map.
  induction H as [|[p o] t Ho _ IH]; [reflexivity|].
  simpl in *. rewrite Ho. simpl. now rewrite IH.
Qed.

Lemma totalunits_details (g : list (Product.row * OrderDetail.row)) :
  totalunits g = sql_sum (map OrderDetail.quantityOrdered (map snd g)).
Proof.
  unfold totalunits. rewrite map_map. f_equal. apply map_ext. now intros [p o].
Qed.

Lemma sold_groups_spec (ps : list Product.row) (r : value * Z * option Z) :
  In r (sold_groups ps ods) <->
  exists p, In p ps /\ details_of p ods <> []
            /\ r = sold_row (Product.productName p)
                     (name_details (Product.productName p) ps ods).
Proof.
  unfold sold_groups. rewrite in_map_iff. split.
  - intros ([name g] & <- & Hin). apply in_group_by in Hin as [Hk ->].
    apply in_map_iff in Hk as ([p o] & <- & Hpo).
    apply in_inner_join in Hpo as (Hp & Ho & Hon).
    exists p. split; [exact Hp|]. split.
    + intros Hnil. assert (Hin : In o (details_of p ods)) by (apply filter_In; auto).
      rewrite Hnil in Hin. destruct Hin.
    + fold by_name. cbn beta iota.
      rewrite numorders_length by apply sold_group_codes.
      now rewrite totalunits_details, sold_group_details.
  - intros (p & Hp & Hsome & ->).
    exists (Product.productName p,
            filter (has_key value_eq_dec by_name (Product.productName p)) (sold_join ps ods)).
    split.
    + rewrite numorders_length by apply sold_group_codes.
      now rewrite totalunits_details, sold_group_details.
    + apply in_group_by. fold by_name. split; [|reflexivity].
      destruct (details_of p ods) as [|o t] eqn:Hd; [now elim Hsome|].
      assert (Hin : In o (details_of p ods)) by (rewrite Hd; now left).
      apply filter_In in Hin as [Ho Hon].
      apply in_map_iff. exists (p, o). split; [reflexivity|].
      apply in_inner_join. auto.
Qed.

Lemma sold_groups_names (ps : list Product.row) : NoDup (map sold_name (sold_groups ps ods)).
Proof.
  unfold sold_groups. rewrite map_map.
  erewrite map_ext; [apply group_by_keys_nodup|]. now intros [name g].
Qed.

(** With unique product names, a name counts the details of one product. *)
Lemma name_details_unique (ps : list Product.row) (p : Product.row) :
  NoDup (map Product.productName ps) -> In p ps ->
  name_details (Product.productName p) ps ods = details_of p ods.
Proof.
  unfold name_details. induction ps as [|a t IH]; intros Hnd Hp; [destruct Hp|].
  simpl in *. inversion Hnd as [|? ? Hnot Hnd']; subst. destruct Hp as [->|Hp].
  - destruct (value_eq_dec (Product.productName p) (Product.productName p)) as [_|Hne];
      [|now elim Hne].
    rewrite <- app_nil_r. f_equal.
    clear IH Hnd Hnd'. induction t as [|b t IH]; [reflexivity|]. simpl.
    destruct (value_eq_dec (Product.productName b) (Product.productName p)) as [Heq|_].
    + elim Hnot. left. exact Heq.
    + apply IH. intros Hin. apply Hnot. now right.
  - destruct (value_eq_dec (Product.productName a) (Product.productName p)) as [Heq|_].
    + elim Hnot. rewrite Heq. now apply in_map.
    + now apply IH.
Qed.
End SoldGroups.

Definition product (code name : string) : Product.row :=
  {| Product.productCode := VText code; Product.productName := VText name |}.

Definition detail (order : Z) (code : string) (quantity : Z) : OrderDetail.row :=
  {| OrderDetail.orderNumber := VInt order; OrderDetail.productCode := VText code;
     OrderDetail.quantityOrdered := Some quantity |}.

Definition with_products (ps : list Product.row) (ods : list OrderDetail.row) : database :=
  {| offices := Some []; employees := Some []; customers := Some []; orders := Some [];
     orderdetails := Some ods; products := Some ps; payments := Some [] |}.

(** The claim for one product: its own row is in the report. *)
Definition per_product_rows
  (E : Engine) (ps : list Product.row) (ods : list OrderDetail.row) : Prop :=
  forall p, In p ps -> details_of p ods <> [] ->
    In (sold_row (Product.productName p) (details_of p ods)) (select_product_sold E ps ods).

(** Two products under one name. *)
Definition renault_1 : Product.row := product "S10_1949" "1952 Alpine Renault 1300".
Definition renault_2 : Product.row := product "S24_2000" "1952 Alpine Renault 1300".
Definition renault_lines : list OrderDetail.row :=
  [detail 10100 "S10_1949" 30; detail 10101 "S24_2000" 50; detail 10102 "S24_2000" 22].

(** C8. Step 7 on two products that share a name: the grouping key is
    [productName] alone, so both products fall into one row that counts the
    order details of both, and the row of the first product (1 order, 30
    units) is not in the report. *)
Lemma product_sold_counterexample :
  select_product_sold rowid_engine [renault_1; renault_2] renault_lines
  = [(VText "1952 Alpine Renault 1300", 3, Some 102)]
  /\ sold_row (Product.productName renault_1) (details_of renault_1 renault_lines)
     = (VText "1952 Alpine Renault 1300", 1, Some 30)
  /\ ~ per_product_rows rowid_engine [renault_1; renault_2] renault_lines.
Proof.
  split; [reflexivity|]. split; [reflexivity|].
  intros H. specialize (H renault_1 (or_introl eq_refl)).
  assert (Hd : details_of renault_1 renault_lines <> []) by (vm_compute; discriminate).
  specialize (H Hd). vm_compute in H. destruct H as [H|[]]. discriminate.
Qed.

(** What step 7 computes: it fails with [integer overflow] when a sum leaves
    the 64-bit range, and returns its rows otherwise.  For every product
    that appears in at least one order detail the rows hold exactly one with
    the product's name; its [numorders] is the number of order details that
    reference the products of that name and its [totalunits] the sum of
    their [quantityOrdered]; when product names are unique these are the
    order details of that one product.  The rows are in descending order of
    [totalunits]. *)
Theorem product_sold_by_name (E : Engine) (db : database)
  (ps : list Product.row) (ods : list OrderDetail.row) :
  products db = Some ps ->
  orderdetails db = Some ods ->
  df_product_sold E db
  = (if units_overflow E ps ods then inl (DatabaseError "integer overflow")
     else ok (frame ["productName"; "numorders"; "totalunits"] sold_cells
                (select_product_sold E ps ods)))
  /\ (forall p, In p ps -> details_of p ods <> [] ->
        filter (has_key value_eq_dec sold_name (Product.productName p))
          (select_product_sold E ps ods)
        = [sold_row (Product.productName p)
             (name_details (Product.productName p) ps ods)])
  /\ (NoDup (map Product.productName ps) -> per_product_rows E ps ods)
  /\ StronglySorted (fun r1 r2 => optZ_le (snd r2) (snd r1)) (select_product_sold E ps ods).
Proof.
  intros Hps Hods. unfold df_product_sold. rewrite Hps, Hods. simpl.
  split; [reflexivity|].
  assert (Hperm : Permutation (select_product_sold E ps ods) (sold_groups ps ods)).
  { unfold select_product_sold.
    eapply perm_trans; [apply order_by_perm | apply arrange_perm]. }
  split; [|split].
  - intros p Hp Hd. apply (filter_perm_singleton _ _ _ _ Hperm).
    apply (filter_unique_key value_eq_dec sold_name (sold_groups ps ods)
             (sold_row (Product.productName p)
                (name_details (Product.productName p) ps ods))).
    + apply sold_groups_names.
    + apply sold_groups_spec. now exists p.
  - intros Hnd p Hp Hd. apply (Permutation_in _ (Permutation_sym Hperm)).
    apply sold_groups_spec. exists p. split; [exact Hp|]. split; [exact Hd|].
    now rewrite name_details_unique.
  - unfold select_product_sold.
    eapply StronglySorted_impl; [|apply order_by_strongly_sorted].
    + intros x y Hxy. apply optZ_leb_le. exact Hxy.
    + apply units_desc_total.
    + apply units_desc_trans.
Qed.

Definition two_models : list Product.row :=
  [product "S10_1678" "1969 Harley Davidson Ultimate Chopper"; renault_1].

Definition model_lines : list OrderDetail.row :=
  [detail 10100 "S10_1949" 30; detail 10107 "S10_1678" 30; detail 10121 "S10_1678" 34].

Lemma product_sold_by_name_witness :
  products (with_products two_models model_lines) = Some two_models
  /\ orderdetails (with_products two_models model_lines) = Some model_lines
  /\ NoDup (map Product.productName two_models)
  /\ select_product_sold rowid_engine two_models model_lines
     = [ (VText "1969 Harley Davidson Ultimate Chopper", 2, Some 64);
         (VText "1952 Alpine Renault 1300", 1, Some 30) ]
  /\ per_product_rows rowid_engine two_models model_lines.
Proof.
  assert (Hnd : NoDup (map Product.productName two_models)).
  { simpl. repeat (constructor; [simpl; intuition discriminate|]). constructor. }
  destruct (product_sold_by_name rowid_engine (with_products two_models model_lines)
              two_models model_lines eq_refl eq_refl) as (_ & _ & Hper & _).
  split; [reflexivity|]. split; [reflexivity|]. split; [exact Hnd|].
  split; [reflexivity|]. exact (Hper Hnd).
Defined.

(** ** Reading through the connection *)

Lemma read_sql_open (sql : database -> result DataFrame) (p : process)
  (path : string) (db : database) :
  conn p = Open path db -> read_sql sql p = (sql db, p).
Proof. unfold read_sql. now intros ->. Qed.


(** ** Step 10: employees who sold a low-demand product *)

(** The distinct customers who bought a product: the customers of the
    orders that hold an order detail of the product. *)
Definition purchasers (ods : list OrderDetail.row) (os : list Order.row) (code : value)
  : list value :=
  nodup value_eq_dec
    (non_null
       (map Order.customerNumber
          (filter (fun o =>
                     existsb (fun od =>
                                (if value_eq_dec (OrderDetail.productCode od) code
                                 then true else false)
                                && sql_eq (OrderDetail.orderNumber od) (Order.orderNumber o))
                       ods)
             os))).

Lemma in_non_null (v : value) (l : list value) :
  In v (non_null l) <-> In v l /\ v <> VNull.
Proof.
  unfold non_null. rewrite filter_In. destruct v; simpl; split; intros [H1 H2];
    split; try assumption; try reflexivity; try discriminate. now elim H2.
Qed.

Section LowDemand.
Variables (ods : list OrderDetail.row) (os : list Order.row).

Let by_code (x : OrderDetail.row * Order.row) : value :=
  let '(od, _) := x in OrderDetail.productCode od.

Let buyer (x : OrderDetail.row * Order.row) : value :=
  let '(_, o) := x in Order.customerNumber o.

Lemma group_purchasers (code : value) :
  numpurchasers (filter (has_key value_eq_dec by_code code) (demand_join ods os))
  = Z.of_nat (List.length (purchasers ods os code)).
Proof.
  unfold numpurchasers, sql_count_distinct, purchasers. f_equal.
  apply Permutation_length. apply NoDup_Permutation; try apply NoDup_nodup.
  intros v. rewrite !nodup_In, !in_non_null, !in_map_iff. fold buyer.
  split; intros [Hin Hv]; (split; [|exact Hv]).
  - destruct Hin as ([od o] & <- & Hin). apply filter_In in Hin as [Hin Hk].
    apply has_key_true in Hk. apply in_inner_join in Hin as (Hod & Ho & Hon).
    exists o. split; [reflexivity|]. apply filter_In. split; [exact Ho|].
    apply existsb_exists. exists od. split; [exact Hod|].
    simpl in Hk. rewrite Hon, andb_true_r.
    now destruct (value_eq_dec (OrderDetail.productCode od) code).
  - destruct Hin as (o & <- & Hin). apply filter_In in Hin as [Ho Hex].
    apply existsb_exists in Hex as (od & Hod & Hboth).
    apply andb_true_iff in Hboth as [Hk Hon].
    exists (od, o). split; [reflexivity|]. apply filter_In. split.
    + apply in_inner_join. auto.
    + apply has_key_true. simpl.
      now destruct (value_eq_dec (OrderDetail.productCode od) code).
Qed.

Lemma in_low_demand (code : value) :
  In code (low_demand_products ods os) <->
  (exists od o, In od ods /\ In o os
                /\ sql_eq (OrderDetail.orderNumber od) (Order.orderNumber o) = true
                /\ OrderDetail.productCode od = code)
  /\ (List.length (purchasers ods os code) < 20)%nat.
Proof.
  unfold low_demand_products. rewrite in_map_iff. fold by_code. split.
  - intros ([k g] & Hk & Hin). simpl in Hk. subst k.
    apply filter_In in Hin as [Hin Hlt]. apply in_group_by in Hin as [Hk ->].
    rewrite group_purchasers in Hlt. apply Z.ltb_lt in Hlt. split; [|lia].
    apply in_map_iff in Hk as ([od o] & Hc & Hin).
    apply in_inner_join in Hin as (Hod & Ho & Hon). now exists od, o.
  - intros ((od & o & Hod & Ho & Hon & Hc) & Hlt).
    exists (code, filter (has_key value_eq_dec by_code code) (demand_join ods os)).
    split; [reflexivity|]. apply filter_In. split.
    + apply in_group_by. split; [|reflexivity].
      apply in_map_iff. exists (od, o). split; [exact Hc|].
      apply in_inner_join. auto.
    + rewrite group_purchasers. apply Z.ltb_lt. lia.
Qed.
End LowDemand.

Definition order_of (customer : nat) : Order.row :=
  {| Order.orderNumber := VInt (10100 + Z.of_nat customer);
     Order.customerNumber := VInt (Z.of_nat customer) |}.

(** Twenty customers, one order each; every order holds product S18_3232 and
    the first one also holds S24_3969. *)
Definition twenty_orders : list Order.row := map order_of (seq 1 20).

Definition popular_lines : list OrderDetail.row :=
  detail 10101 "S24_3969" 2
  :: map (fun c => detail (10100 + Z.of_nat c) "S18_3232" 1) (seq 1 20).

Definition sales_database : database :=
  {| offices := Some [boston];
     employees := Some [employee 1188 "Julie" "Firrelli" (VText "1");
                        employee 1216 "Steve" "Patterson" (VText "1")];
     customers := Some [customer 1 "a" "A" (VInt 1188) (VInt 21000);
                        customer 2 "b" "B" (VInt 1216) (VInt 71800)];
     orders := Some twenty_orders;
     orderdetails := Some popular_lines;
     products := Some [product "S18_3232" "1992 Ferrari 360 Spider red";
                       product "S24_3969" "1936 Mercedes Benz 500k Roadster"];
     payments := Some [] |}.


(** ** The run of the script *)

Definition add_globals (p : process) (l : list (string * DataFrame)) : process :=
  {| conn := conn p; connect_calls := connect_calls p; created := created p;
     globals := globals p ++ l; stdout := stdout p |}.

(** The tables the steps bind on [db] up to the first step that fails. *)
Fixpoint tables (steps : list step) (db : database) : list (string * DataFrame) :=
  match steps with
  | [] => []
  | (name, sql) :: more =>
      match sql db with
      | inr df => (name, df) :: tables more db
      | inl _ => []
      end
  end.

(** The exception of the first step that fails on [db], if any. *)
Fixpoint failure (steps : list step) (db : database) : option exn :=
  match steps with
  | [] => None
  | (_, sql) :: more =>
      match sql db with
      | inr _ => failure more db
      | inl e => Some e
      end
  end.

Lemma add_globals_nil (p : process) : add_globals p [] = p.
Proof. destruct p. unfold add_globals. simpl. now rewrite app_nil_r. Qed.

Lemma add_globals_cons (p : process) (x : string * DataFrame) (l : list (string * DataFrame)) :
  add_globals (add_globals p [x]) l = add_globals p (x :: l).
Proof. unfold add_globals. simpl. now rewrite <- app_assoc. Qed.

Lemma run_script_open (steps : list step) (rest : M unit) (p : process)
  (path : string) (db : database) :
  conn p = Open path db ->
  run_script steps rest p
  = match failure steps db with
    | Some e => (inl e, add_globals p (tables steps db))
    | None => rest (add_globals p (tables steps db))
    end.
Proof.
  revert p. induction steps as [|[name sql] more IH]; intros p Hconn; simpl.
  - now rewrite add_globals_nil.
  - unfold bind at 1. unfold assign_sql, bind at 1.
    rewrite (read_sql_open sql p path db Hconn).
    destruct (sql db) as [e|df].
    + now rewrite add_globals_nil.
    + unfold assign at 1. fold (add_globals p [(name, df)]).
      rewrite IH by exact Hconn. rewrite add_globals_cons.
      now destruct (failure more db).
Qed.

Lemma tables_failure_split (pre post : list step) (name : string)
  (sql : database -> result DataFrame) (db : database) (e : exn) :
  (forall s, In s pre -> exists df, snd s db = inr df) ->
  sql db = inl e ->
  failure (pre ++ (name, sql) :: post) db = Some e
  /\ map fst (tables (pre ++ (name, sql) :: post) db) = map fst pre
  /\ forall s, In s pre ->
       exists df, snd s db = inr df
                  /\ In (fst s, df) (tables (pre ++ (name, sql) :: post) db).
Proof.
  intros Hpre Hsql. induction pre as [|[n q] t IH]; simpl.
  - rewrite Hsql. repeat split. intros s [].
  - destruct (Hpre (n, q) (or_introl eq_refl)) as [df Hdf]. simpl in Hdf. rewrite Hdf.
    destruct IH as (Hf & Hn & Hin); [intros s Hs; apply Hpre; now right|].
    split; [exact Hf|]. split; [simpl; now rewrite Hn|].
    intros s [<-|Hs].
    + exists df. split; [exact Hdf | now left].
    + destruct (Hin s Hs) as (df' & H1 & H2). exists df'. split; [exact H1 | now right].
Qed.

Lemma tables_all (steps : list step) (db : database) :
  failure steps db = None ->
  forall name sql, In (name, sql) steps ->
    exists df, sql db = inr df /\ In (name, df) (tables steps db).
Proof.
  induction steps as [|[n q] more IH]; simpl; intros Hf name sql; [intros []|].
  destruct (q db) as [e|df] eqn:Hq; [discriminate|].
  intros [Heq|Hin].
  - injection Heq as <- <-. exists df. split; [exact Hq | now left].
  - destruct (IH Hf name sql Hin) as (df' & H1 & H2). exists df'. split; [exact H1 | now right].
Qed.

(** The script reads the file system at one path only. *)
Lemma main_reads_one_path (E : Engine) (fs : string -> file_state) :
  main E fs start = main E (fun _ => fs database_path) start.
Proof. reflexivity. Qed.

(** The process after the connect and the two catalogue reads. *)
Definition after_prelude (E : Engine) (db : database) (made : list string) : process :=
  let tables_frame := frame ["name"] (fun n => [VText n]) (arrange E (table_names db)) in
  {| conn := Open database_path db; connect_calls := [database_path]; created := made;
     globals := [("df_tables", tables_frame)]; stdout := [tables_frame] |}.

Definition close (p : process) : process :=
  {| conn := Closed database_path; connect_calls := connect_calls p; created := created p;
     globals := globals p; stdout := stdout p |}.

(** How a run ends on a database: at the first failing step with its
    exception and the connection as it is, or after [conn.close()]. *)
Definition ending (E : Engine) (db : database) (made : list string)
  : result unit * process :=
  match failure (script E) db with
  | Some e => (inl e, add_globals (after_prelude E db made) (tables (script E) db))
  | None => (inr tt, close (add_globals (after_prelude E db made) (tables (script E) db)))
  end.

Lemma main_script (E : Engine) (fs : string -> file_state) :
  main E fs
  = (sqlite3_connect fs database_path ;;
     prelude E (run_script (script E) conn_close))%py.
Proof. reflexivity. Qed.

Lemma prelude_open (E : Engine) (rest : M unit) (db : database) (made : list string) :
  prelude E rest
    {| conn := Open database_path db; connect_calls := [database_path]; created := made;
       globals := []; stdout := [] |}
  = rest (after_prelude E db made).
Proof. reflexivity. Qed.

Lemma script_ending (E : Engine) (db : database) (made : list string) :
  run_script (script E) conn_close (after_prelude E db made) = ending E db made.
Proof.
  rewrite (run_script_open _ _ _ database_path db) by reflexivity.
  unfold ending. now destruct (failure (script E) db).
Qed.

Lemma run_ending (E : Engine) (inv : invocation) :
  run E inv
  = match files inv database_path with
    | Stored db => ending E db []
    | Missing => ending E empty_database [database_path]
    | Unopenable =>
        (inl (OperationalError "unable to open database file"),
         {| conn := NoConnection; connect_calls := [database_path]; created := [];
            globals := []; stdout := [] |})
    end.
Proof.
  unfold run. rewrite main_script. unfold bind at 1, sqlite3_connect.
  destruct (files inv database_path) as [| |db]; [|reflexivity|].
  - cbn [start conn connect_calls created globals stdout app].
    rewrite prelude_open. apply script_ending.
  - cbn [start conn connect_calls created globals stdout app].
    rewrite prelude_open. apply script_ending.
Qed.

(** ** The connection across a run *)

(** A run in a directory whose [data.sqlite] is in the given state. *)
Definition invoke_on (st : file_state) : invocation :=
  {| argv := ["main.py"]; environ := [];
     files := fun path => if (path =? database_path)%string then st else Missing |}.

(** The sales database without its [payments] table. *)
Definition unpaid_database : database :=
  {| offices := offices sales_database; employees := employees sales_database;
     customers := customers sales_database; orders := orders sales_database;
     orderdetails := orderdetails sales_database; products := products sales_database;
     payments := None |}.

(** The rule of the claim: a connection that was opened is closed when the
    run ends. *)
Definition closed_on_exit (E : Engine) (inv : invocation) : Prop :=
  was_opened (snd (run E inv)) -> is_closed (snd (run E inv)) = true.

(** C1, as stated, fails: the script has no handler around its queries, so
    when step 5 raises the run ends with the connection still open. *)
Lemma close_counterexample :
  fst (run rowid_engine (invoke_on (Stored unpaid_database)))
  = inl (DatabaseError "no such table: payments")
  /\ conn (snd (run rowid_engine (invoke_on (Stored unpaid_database))))
     = Open database_path unpaid_database
  /\ ~ closed_on_exit rowid_engine (invoke_on (Stored unpaid_database)).
Proof.
  split; [vm_compute; reflexivity|]. split; [vm_compute; reflexivity|].
  intros H. unfold closed_on_exit in H.
  assert (Hopen : was_opened (snd (run rowid_engine (invoke_on (Stored unpaid_database)))))
    by (vm_compute; exact I).
  specialize (H Hopen). vm_compute in H. discriminate.
Qed.

(** C1, amended. The connection is closed exactly when every statement of
    the script succeeds: a run that ends normally ends with the connection
    closed, and a run that ends with an exception never reaches
    [conn.close()], so a connection that was opened is still open. *)
Theorem close_when_completed (E : Engine) (inv : invocation) :
  (fst (run E inv) = inr tt -> conn (snd (run E inv)) = Closed database_path)
  /\ (forall e, fst (run E inv) = inl e -> is_closed (snd (run E inv)) = false)
  /\ (forall e, fst (run E inv) = inl e -> was_opened (snd (run E inv)) ->
        exists db, conn (snd (run E inv)) = Open database_path db).
Proof.
  rewrite run_ending. destruct (files inv database_path) as [| |db]; unfold ending.
  - destruct (failure (script E) empty_database); simpl; repeat split;
      try discriminate; try reflexivity. intros _ _ _. now exists empty_database.
  - simpl. repeat split; try discriminate. intros _ _ [].
  - destruct (failure (script E) db); simpl; repeat split;
      try discriminate; try reflexivity. intros _ _ _. now exists db.
Qed.

Lemma close_when_completed_witness :
  fst (run rowid_engine (invoke_on (Stored sales_database))) = inr tt
  /\ conn (snd (run rowid_engine (invoke_on (Stored sales_database))))
     = Closed database_path
  /\ fst (run rowid_engine (invoke_on (Stored unpaid_database)))
     = inl (DatabaseError "no such table: payments")
  /\ is_closed (snd (run rowid_engine (invoke_on (Stored unpaid_database)))) = false.
Proof.
  assert (Hok : fst (run rowid_engine (invoke_on (Stored sales_database))) = inr tt)
    by (vm_compute; reflexivity).
  assert (Hko : fst (run rowid_engine (invoke_on (Stored unpaid_database)))
                = inl (DatabaseError "no such table: payments"))
    by (vm_compute; reflexivity).
  split; [exact Hok|]. split.
  - exact (proj1 (close_when_completed rowid_engine (invoke_on (Stored sales_database))) Hok).
  - split; [exact Hko|].
    exact (proj1 (proj2 (close_when_completed rowid_engine
                           (invoke_on (Stored unpaid_database)))) _ Hko).
Defined.

(** ** A failing step *)

Lemma script_names (E : Engine) :
  map fst (script E)
  = ["df_boston"; "df_zero_emp"; "df_employee"; "df_contacts"; "df_payment"; "df_credit";
     "df_product_sold"; "df_total_customers"; "df_customers"; "df_under_20"].
Proof. reflexivity. Qed.

Lemma script_names_nodup (E : Engine) : NoDup ("df_tables" :: map fst (script E)).
Proof.
  rewrite script_names.
  repeat (constructor; [simpl; intuition discriminate|]). constructor.
Qed.

Lemma NoDup_app_disjoint {A : Type} (l1 l2 : list A) (x : A) :
  NoDup (l1 ++ l2) -> In x l1 -> In x l2 -> False.
Proof.
  induction l1 as [|a t IH]; simpl; intros Hnd H1 H2; [destruct H1|].
  inversion Hnd as [|? ? Hnot Hnd']; subst. destruct H1 as [->|H1].
  - apply Hnot. apply in_or_app. now right.
  - now apply IH.
Qed.

(** The rule of the claim: when a step fails, every other step that yields a
    table on the database is still run and its table bound. *)
Definition failure_is_isolated (E : Engine) (inv : invocation) : Prop :=
  forall db i j,
    files inv database_path = Stored db ->
    In i (script E) -> In j (script E) -> fst j <> fst i ->
    (exists e, snd i db = inl e) ->
    (exists df, snd j db = inr df) ->
    bound (fst j) (snd (run E inv)).

(** C2, as stated, fails: the exception of step 5 ends the run, and step 6,
    which reads tables that are all present, is never run. *)
Lemma isolation_counterexample :
  df_payment rowid_engine unpaid_database = inl (DatabaseError "no such table: payments")
  /\ (exists df, df_credit rowid_engine unpaid_database = inr df)
  /\ map fst (globals (snd (run rowid_engine (invoke_on (Stored unpaid_database)))))
     = ["df_tables"; "df_boston"; "df_zero_emp"; "df_employee"; "df_contacts"]
  /\ ~ failure_is_isolated rowid_engine (invoke_on (Stored unpaid_database)).
Proof.
  split; [reflexivity|].
  assert (Hcredit : exists df, df_credit rowid_engine unpaid_database = inr df)
    by (eexists; vm_compute; reflexivity).
  split; [exact Hcredit|]. split; [vm_compute; reflexivity|].
  intros H.
  specialize (H unpaid_database ("df_payment", df_payment rowid_engine)
                ("df_credit", df_credit rowid_engine) eq_refl).
  assert (Hb : bound "df_credit" (snd (run rowid_engine (invoke_on (Stored unpaid_database))))).
  { apply H.
    - simpl. tauto.
    - simpl. tauto.
    - discriminate.
    - eexists. reflexivity.
    - exact Hcredit. }
  unfold bound in Hb. vm_compute in Hb. intuition discriminate.
Qed.

(** C2, amended. When a step fails with a query error, the steps before it
    have run and their tables are bound, the run ends with that step's
    exception, and neither the failing step nor any later step binds a
    table: the later steps are not run. *)
Theorem failure_ends_run (E : Engine) (inv : invocation) (db : database)
  (pre post : list step) (name : string) (sql : database -> result DataFrame) (e : exn) :
  files inv database_path = Stored db ->
  script E = pre ++ (name, sql) :: post ->
  (forall s, In s pre -> exists df, snd s db = inr df) ->
  sql db = inl e ->
  fst (run E inv) = inl e
  /\ (forall s, In s pre ->
        exists df, snd s db = inr df /\ In (fst s, df) (globals (snd (run E inv))))
  /\ (forall s, In s ((name, sql) :: post) -> ~ bound (fst s) (snd (run E inv))).
Proof.
  intros Hfile Hscript Hpre Hsql.
  destruct (tables_failure_split pre post name sql db e Hpre Hsql) as (Hf & Hn & Hin).
  rewrite run_ending, Hfile. unfold ending. rewrite Hscript, Hf. simpl.
  split; [reflexivity|]. split.
  - intros s Hs. destruct (Hin s Hs) as (df & H1 & H2). exists df. split; [exact H1|].
    now right.
  - intros s Hs. unfold bound. cbn [globals add_globals after_prelude app map fst].
    rewrite Hn. intros Hb.
    pose proof (script_names_nodup E) as Hnd. rewrite Hscript, map_app in Hnd.
    apply (NoDup_app_disjoint ("df_tables" :: map fst pre) (map fst ((name, sql) :: post))
             (fst s) Hnd Hb).
    now apply in_map.
Qed.

Lemma failure_ends_run_witness :
  fst (run rowid_engine (invoke_on (Stored unpaid_database)))
  = inl (DatabaseError "no such table: payments")
  /\ ~ bound "df_credit" (snd (run rowid_engine (invoke_on (Stored unpaid_database))))
  /\ ~ bound "df_under_20" (snd (run rowid_engine (invoke_on (Stored unpaid_database)))).
Proof.
  destruct (failure_ends_run rowid_engine (invoke_on (Stored unpaid_database))
              unpaid_database
              [("df_boston", df_boston rowid_engine); ("df_zero_emp", df_zero_emp rowid_engine);
               ("df_employee", df_employee rowid_engine);
               ("df_contacts", df_contacts rowid_engine)]
              [("df_credit", df_credit rowid_engine);
               ("df_product_sold", df_product_sold rowid_engine);
               ("df_total_customers", df_total_customers rowid_engine);
               ("df_customers", df_customers rowid_engine);
               ("df_under_20", df_under_20 rowid_engine)]
              "df_payment" (df_payment rowid_engine)
              (DatabaseError "no such table: payments")
              eq_refl eq_refl) as (Hraise & _ & Hlater).
  - intros s [<-|[<-|[<-|[<-|[]]]]]; eexists; vm_compute; reflexivity.
  - reflexivity.
  - split; [exact Hraise|]. split.
    + apply (Hlater ("df_credit", df_credit rowid_engine)). simpl. tauto.
    + apply (Hlater ("df_under_20", df_under_20 rowid_engine)). simpl. tauto.
Defined.

(** ** Opening the database *)







(** ** The database path *)

Lemma ending_calls (E : Engine) (db : database) (made : list string) :
  connect_calls (snd (ending E db made)) = [database_path].
Proof. unfold ending. now destruct (failure (script E) db). Qed.

(** C10. The path of the database is no input of the program: every run
    calls [sqlite3.connect] once, on the name [data.sqlite] resolved in the
    working directory, and two runs that find the same file under that
    name end alike whatever their arguments, environment and other files. *)
Theorem fixed_database_path (E : Engine) (inv : invocation) :
  database_path = "data.sqlite"
  /\ connect_calls (snd (run E inv)) = ["data.sqlite"]
  /\ (forall inv', files inv' database_path = files inv database_path ->
        run E inv' = run E inv).
Proof.
  split; [reflexivity|]. split.
  - rewrite run_ending. destruct (files inv database_path); try apply ending_calls.
    reflexivity.
  - intros inv' Hsame. now rewrite !run_ending, Hsame.
Qed.

(** The same directory, reached with other arguments and environment and
    with another database lying next to [data.sqlite]. *)
Definition other_invocation : invocation :=
  {| argv := ["main.py"; "--db"; "other.sqlite"];
     environ := [("DATABASE_URL", "other.sqlite")];
     files := fun path =>
                if (path =? "data.sqlite")%string then Stored sales_database
                else if (path =? "other.sqlite")%string then Stored unpaid_database
                else Missing |}.

Lemma fixed_database_path_witness :
  files other_invocation database_path = files (invoke_on (Stored sales_database)) database_path
  /\ run rowid_engine other_invocation = run rowid_engine (invoke_on (Stored sales_database))
  /\ connect_calls (snd (run rowid_engine other_invocation)) = ["data.sqlite"].
Proof.
  split; [reflexivity|]. split.
  - exact (proj2 (proj2 (fixed_database_path rowid_engine (invoke_on (Stored sales_database))))
             other_invocation eq_refl).
  - exact (proj1 (proj2 (fixed_database_path rowid_engine other_invocation))).
Defined.


(** * Further properties of the reports *)

(** ** The sort order of values *)

Lemma ascii_compare_trans (a b c : ascii) :
  Ascii.compare a b <> Gt -> Ascii.compare b c <> Gt -> Ascii.compare a c <> Gt.
Proof.
  unfold Ascii.compare. rewrite !N.compare_le_iff. apply N.le_trans.
Qed.

Lemma ascii_compare_lt_trans (a b c : ascii) :
  Ascii.compare a b = Lt -> Ascii.compare b c <> Gt -> Ascii.compare a c = Lt.
Proof.
  unfold Ascii.compare. rewrite !N.compare_lt_iff, N.compare_le_iff. apply N.lt_le_trans.
Qed.


Lemma string_compare_trans (s t u : string) :
  String.compare s t <> Gt -> String.compare t u <> Gt -> String.compare s u <> Gt.
Proof.
  revert t u. induction s as [|a s IH]; intros [|b t] [|c u]; simpl; try congruence.
  destruct (Ascii.compare a b) eqn:Hab; [| |congruence].
  - apply Ascii.compare_eq_iff in Hab. subst b.
    destruct (Ascii.compare a c); [apply IH | congruence | congruence].
  - intros _ Hbc.
    assert (Hle : Ascii.compare b c <> Gt) by (destruct (Ascii.compare b c); congruence).
    rewrite (ascii_compare_lt_trans a b c Hab Hle). congruence.
Qed.

Lemma value_compare_eq (a b : value) : value_compare a b = Eq -> a = b.
Proof.
  destruct a, b; simpl; intro H; try discriminate; try reflexivity.
  - apply Z.compare_eq in H. now subst.
  - apply String.compare_eq_iff in H. now subst.
Qed.

Lemma value_compare_antisym (a b : value) :
  value_compare a b = CompOpp (value_compare b a).
Proof.
  destruct a, b; simpl; try reflexivity.
  - apply Z.compare_antisym.
  - apply String.compare_antisym.
Qed.

Lemma value_compare_trans (a b c : value) :
  value_compare a b <> Gt -> value_compare b c <> Gt -> value_compare a c <> Gt.
Proof.
  destruct a, b, c; simpl; try congruence.
  - rewrite !Z.compare_le_iff. apply Z.le_trans.
  - apply string_compare_trans.
Qed.

(** A primary key and a secondary key, as in [ORDER BY k1, k2]. *)
Definition by_two_keys (k1 k2 k1' k2' : value) : bool :=
  leb_of (lex (value_compare k1 k1') (value_compare k2 k2')).

Lemma by_two_keys_total (a b a' b' : value) :
  by_two_keys a b a' b' = true \/ by_two_keys a' b' a b = true.
Proof.
  unfold by_two_keys. rewrite (value_compare_antisym a' a), (value_compare_antisym b' b).
  destruct (value_compare a a'), (value_compare b b'); simpl; auto.
Qed.

Lemma by_two_keys_trans (a1 b1 a2 b2 a3 b3 : value) :
  by_two_keys a1 b1 a2 b2 = true -> by_two_keys a2 b2 a3 b3 = true ->
  by_two_keys a1 b1 a3 b3 = true.
Proof.
  unfold by_two_keys. intros H12 H23.
  destruct (value_compare a1 a2) eqn:Ha12.
  - apply value_compare_eq in Ha12. subst a2.
    destruct (value_compare a1 a3) eqn:Ha13; simpl in *; try assumption; try reflexivity.
    pose proof (value_compare_trans b1 b2 b3) as Ht.
    destruct (value_compare b1 b2), (value_compare b2 b3), (value_compare b1 b3);
      simpl in *; try reflexivity; try discriminate; exfalso; apply Ht; congruence.
  - destruct (value_compare a2 a3) eqn:Ha23.
    + apply value_compare_eq in Ha23. subst a3. now rewrite Ha12.
    + pose proof (value_compare_trans a1 a2 a3) as Ht.
      destruct (value_compare a1 a3) eqn:Ha13; simpl; try reflexivity.
      * apply value_compare_eq in Ha13. subst a3.
        rewrite value_compare_antisym, Ha12 in Ha23. discriminate.
      * exfalso. apply Ht; congruence.
    + simpl in H23. discriminate.
  - simpl in H12. discriminate.
Qed.

(** ** Joins against a keyed table *)

Lemma sql_eq_true (a b : value) : sql_eq a b = true -> a = b /\ a <> VNull.
Proof.
  destruct a, b; simpl; intro H; try discriminate.
  - apply Z.eqb_eq in H. subst. split; [reflexivity | discriminate].
  - apply String.eqb_eq in H. subst. split; [reflexivity | discriminate].
Qed.

Lemma sql_eq_same (a : value) : a <> VNull -> sql_eq a a = true.
Proof.
  destruct a; simpl; intro H; [now elim H | apply Z.eqb_refl | apply String.eqb_refl].
Qed.

Section KeyedJoin.
Context {A B : Type} (key : A -> value) (fk : B -> value).

(** The row of the keyed table that a foreign key points to. *)
Definition referenced (r : list A) (b : B) : option A :=
  find (fun a => sql_eq (fk b) (key a)) r.

Lemma keyed_matches (r : list A) (b : B) :
  NoDup (map key r) ->
  filter (fun a => sql_eq (fk b) (key a)) r
  = match referenced r b with Some a => [a] | None => [] end.
Proof.
  unfold referenced. induction r as [|a t IH]; intros Hnd; [reflexivity|].
  simpl in *. inversion Hnd as [|? ? Hnot Hnd']; subst.
  destruct (sql_eq (fk b) (key a)) eqn:Hon; [|now apply IH].
  f_equal. destruct (filter (fun a0 => sql_eq (fk b) (key a0)) t) as [|a' m] eqn:Hf;
    [reflexivity|].
  assert (Hin : In a' (filter (fun a0 => sql_eq (fk b) (key a0)) t)) by (rewrite Hf; now left).
  apply filter_In in Hin as [Hin Hon'].
  apply sql_eq_true in Hon as [Hk _]. apply sql_eq_true in Hon' as [Hk' _].
  elim Hnot. rewrite <- Hk, Hk'. now apply in_map.
Qed.

(** A left join against unique keys keeps every left row exactly once. *)
Lemma left_join_keyed (l : list B) (r : list A) :
  NoDup (map key r) ->
  left_join (fun b a => sql_eq (fk b) (key a)) l r = map (fun b => (b, referenced r b)) l.
Proof.
  intros Hnd. unfold left_join. induction l as [|b t IH]; [reflexivity|].
  cbn [flat_map]. rewrite IH, (keyed_matches r b Hnd).
  destruct (referenced r b) eqn:Href; cbn [map flat_map app]; now rewrite ?Href.
Qed.

Lemma inner_join_keyed (l : list B) (r : list A) :
  NoDup (map key r) ->
  inner_join (fun b a => sql_eq (fk b) (key a)) l r
  = flat_map (fun b => match referenced r b with Some a => [(b, a)] | None => [] end) l.
Proof.
  intros Hnd. unfold inner_join. induction l as [|b t IH]; [reflexivity|].
  cbn [flat_map]. rewrite IH, (keyed_matches r b Hnd).
  destruct (referenced r b) eqn:Href; cbn [map flat_map app]; now rewrite ?Href.
Qed.

(** The same with the keyed table on the left of the join. *)
Definition referenced_by (l : list A) (b : B) : option A :=
  find (fun a => sql_eq (key a) (fk b)) l.

Lemma keyed_inner_join (l : list A) (r : list B) :
  NoDup (map key l) ->
  Permutation
    (inner_join (fun a b => sql_eq (key a) (fk b)) l r)
    (flat_map (fun b => match referenced_by l b with Some a => [(a, b)] | None => [] end) r).
Proof.
  unfold inner_join, referenced_by. induction l as [|a t IH]; intros Hnd.
  - simpl. induction r as [|b r' IHr]; [constructor | exact IHr].
  - inversion Hnd as [|? ? Hnot Hnd']; subst. simpl.
    eapply perm_trans; [apply Permutation_app_head, (IH Hnd')|]. clear IH.
    induction r as [|b r' IHr]; [constructor|].
    simpl. destruct (sql_eq (key a) (fk b)) eqn:Hon.
    + assert (Hnone : find (fun a0 => sql_eq (key a0) (fk b)) t = None).
      { destruct (find (fun a0 => sql_eq (key a0) (fk b)) t) as [a'|] eqn:Hf; [|reflexivity].
        apply find_some in Hf as [Hin Hon'].
        apply sql_eq_true in Hon as [Hk _]. apply sql_eq_true in Hon' as [Hk' _].
        elim Hnot. rewrite Hk, <- Hk'. now apply in_map. }
      rewrite Hnone. simpl. now apply perm_skip.
    + eapply perm_trans; [apply Permutation_app_swap_app|].
      now apply Permutation_app_head.
Qed.
End KeyedJoin.

(** A left join restricted to the rows without a match: the left rows that
    no right row satisfies, when the tested right column is never NULL. *)
Lemma anti_join {A B : Type} (on : A -> B -> bool) (null : B -> bool)
  (l : list A) (r : list B) :
  (forall b, In b r -> null b = false) ->
  map fst
    (filter (fun x : A * option B =>
               let '(_, m) := x in match m with None => true | Some b => null b end)
       (left_join on l r))
  = filter (fun a => negb (existsb (on a) r)) l.
Proof.
  intros Hnull. unfold left_join. induction l as [|a t IH]; [reflexivity|].
  cbn [flat_map]. rewrite filter_app, map_app, IH. clear IH.
  change (filter (fun a0 => negb (existsb (on a0) r)) (a :: t))
    with (if negb (existsb (on a) r)
          then a :: filter (fun a0 => negb (existsb (on a0) r)) t
          else filter (fun a0 => negb (existsb (on a0) r)) t).
  destruct (filter (on a) r) as [|b m] eqn:Hf.
  - assert (Hex : existsb (on a) r = false).
    { destruct (existsb (on a) r) eqn:Hex; [|reflexivity].
      apply existsb_exists in Hex as (b & Hb & Hon).
      assert (Hin : In b (filter (on a) r)) by (apply filter_In; auto).
      rewrite Hf in Hin. destruct Hin. }
    rewrite Hex. reflexivity.
  - assert (Hex : existsb (on a) r = true).
    { apply existsb_exists. exists b.
      assert (Hin : In b (filter (on a) r)) by (rewrite Hf; now left).
      now apply filter_In in Hin. }
    rewrite Hex. cbn [negb].
    assert (Hall : forall b', In b' (b :: m) -> null b' = false).
    { intros b' Hb'. apply Hnull. rewrite <- Hf in Hb'. now apply filter_In in Hb'. }
    clear Hf Hex.
    replace (filter (fun x : A * option B =>
                       let '(_, m0) := x in
                       match m0 with None => true | Some b0 => null b0 end)
               (map (fun b0 => (a, Some b0)) (b :: m))) with (@nil (A * option B));
      [reflexivity|].
    induction (b :: m) as [|b' m' IHm]; [reflexivity|].
    cbn [map filter]. rewrite (Hall b' (or_introl eq_refl)). apply IHm.
    intros b'' Hb''. apply Hall. now right.
Qed.

(** ** Step 1: the Boston staff *)

(** The office an employee belongs to. *)
Definition office_of (os : list Office.row) (e : Employee.row) : option Office.row :=
  referenced Office.officeCode Employee.officeCode os e.

Definition in_boston (os : list Office.row) (e : Employee.row) : bool :=
  match office_of os e with
  | Some o => sql_eq (Office.city o) (VText "Boston")
  | None => false
  end.

Definition employee_name (e : Employee.row) : value * value :=
  (Employee.firstName e, Employee.lastName e).

(** X1. With unique office codes, step 1 returns the names of exactly the
    employees whose office is in the city 'Boston', one row per such
    employee; an employee whose office code is NULL or names no office is
    left out. *)
Theorem boston_staff_exact (E : Engine) (db : database)
  (es : list Employee.row) (os : list Office.row) :
  employees db = Some es ->
  offices db = Some os ->
  NoDup (map Office.officeCode os) ->
  df_boston E db
  = ok (frame ["firstName"; "lastName"] (fun '(f, l) => [f; l]) (select_boston E es os))
  /\ Permutation (select_boston E es os) (map employee_name (filter (in_boston os) es))
  /\ (forall e, In e es -> office_of os e = None -> in_boston os e = false).
Proof.
  intros Hes Hos Hnd. unfold df_boston. rewrite Hes, Hos. simpl.
  split; [reflexivity|]. split.
  - unfold select_boston. eapply perm_trans; [apply arrange_perm|].
    rewrite (inner_join_keyed Office.officeCode Employee.officeCode es os Hnd).
    unfold in_boston, office_of. clear Hes Hos.
    induction es as [|e t IH]; [constructor|].
    cbn [flat_map]. rewrite filter_app, map_app. cbn [filter].
    destruct (referenced Office.officeCode Employee.officeCode os e) as [o|];
      [|exact IH].
    cbn [filter]. destruct (sql_eq (Office.city o) (VText "Boston")); [|exact IH].
    cbn [map app]. now apply perm_skip.
  - intros e _ Hnone. unfold in_boston. now rewrite Hnone.
Qed.

Definition boston_and_paris_staff : list Employee.row :=
  boston_staff ++ [employee 1102 "Gerard" "Bondur" (VText "4");
                   employee 1999 "Ann" "Onymous" VNull].

Lemma boston_staff_exact_witness :
  NoDup (map Office.officeCode two_offices)
  /\ Permutation (select_boston rowid_engine boston_and_paris_staff two_offices)
       [(VText "Diane", VText "Murphy"); (VText "Mary", VText "Patterson")].
Proof.
  assert (Hnd : NoDup (map Office.officeCode two_offices)).
  { simpl. repeat (constructor; [simpl; intuition discriminate|]). constructor. }
  split; [exact Hnd|].
  exact (proj1 (proj2 (boston_staff_exact rowid_engine
                         (with_offices two_offices boston_and_paris_staff)
                         boston_and_paris_staff two_offices eq_refl eq_refl Hnd))).
Defined.

(** ** Step 3: every employee with the office *)

Definition employee_row (os : list Office.row) (e : Employee.row)
  : value * value * value * value :=
  (Employee.firstName e, Employee.lastName e,
   match office_of os e with Some o => Office.city o | None => VNull end,
   match office_of os e with Some o => Office.state o | None => VNull end).

(** Not after, by the first then the second column. *)
Definition first_then_second (r1 r2 : value * value * value * value) : Prop :=
  let '(a1, b1, _, _) := r1 in
  let '(a2, b2, _, _) := r2 in
  by_two_keys a1 b1 a2 b2 = true.

(** X2. Step 3 returns its rows in the order of first name, then last name;
    with unique office codes it returns exactly one row per employee, with
    the city and state of the employee's office, or NULL for both when the
    employee has no office. *)
Theorem employee_rows_exact (E : Engine) (db : database)
  (es : list Employee.row) (os : list Office.row) :
  employees db = Some es ->
  offices db = Some os ->
  df_employee E db
  = ok (frame ["firstName"; "lastName"; "city"; "state"]
          (fun '(f, l, c, s) => [f; l; c; s]) (select_employee E es os))
  /\ StronglySorted first_then_second (select_employee E es os)
  /\ (NoDup (map Office.officeCode os) ->
      Permutation (select_employee E es os) (map (employee_row os) es)
      /\ List.length (select_employee E es os) = List.length es).
Proof.
  intros Hes Hos. unfold df_employee. rewrite Hes, Hos. simpl.
  split; [reflexivity|]. unfold select_employee. split.
  - eapply StronglySorted_impl; [|apply order_by_strongly_sorted].
    + intros [[[a1 b1] c1] s1] [[[a2 b2] c2] s2] H. exact H.
    + intros [[[a1 b1] c1] s1] [[[a2 b2] c2] s2]. apply by_two_keys_total.
    + intros [[[a1 b1] c1] s1] [[[a2 b2] c2] s2] [[[a3 b3] c3] s3].
      apply by_two_keys_trans.
  - intros Hnd.
    assert (Hperm : Permutation
                      (order_by
                         (fun '(f1, l1, _, _) '(f2, l2, _, _) =>
                            leb_of (lex (value_compare f1 f2) (value_compare l1 l2)))
                         (arrange E
                            (map (fun '(e, mo) =>
                                    (Employee.firstName e, Employee.lastName e,
                                     match mo with Some o => Office.city o | None => VNull end,
                                     match mo with Some o => Office.state o | None => VNull end))
                               (left_join
                                  (fun e o => sql_eq (Employee.officeCode e) (Office.officeCode o))
                                  es os))))
                      (map (employee_row os) es)).
    { eapply perm_trans; [apply order_by_perm|].
      eapply perm_trans; [apply arrange_perm|].
      rewrite (left_join_keyed Office.officeCode Employee.officeCode es os Hnd).
      rewrite map_map. apply Permutation_refl. }
    split; [exact Hperm|].
    rewrite (Permutation_length Hperm). apply length_map.
Qed.

Lemma employee_rows_exact_witness :
  NoDup (map Office.officeCode two_offices)
  /\ select_employee rowid_engine boston_and_paris_staff two_offices
     = [ (VText "Ann", VText "Onymous", VNull, VNull);
         (VText "Diane", VText "Murphy", VText "Boston", VText "MA");
         (VText "Gerard", VText "Bondur", VText "Paris", VNull);
         (VText "Mary", VText "Patterson", VText "Boston", VText "MA") ]
  /\ List.length (select_employee rowid_engine boston_and_paris_staff two_offices) = 4%nat.
Proof.
  assert (Hnd : NoDup (map Office.officeCode two_offices)).
  { simpl. repeat (constructor; [simpl; intuition discriminate|]). constructor. }
  split; [exact Hnd|]. split; [reflexivity|].
  exact (proj2 (proj2 (proj2 (employee_rows_exact rowid_engine
                                (with_offices two_offices boston_and_paris_staff)
                                boston_and_paris_staff two_offices eq_refl eq_refl)) Hnd)).
Defined.

(** ** Steps 2 and 4: rows without a match *)

(** An order placed by a customer. *)
Definition ordered_by (c : Customer.row) (o : Order.row) : bool :=
  sql_eq (Customer.customerNumber c) (Order.customerNumber o).

Definition has_orders (os : list Order.row) (c : Customer.row) : bool :=
  existsb (ordered_by c) os.

Definition contact_row (c : Customer.row) : value * value * value * value :=
  (Customer.contactFirstName c, Customer.contactLastName c, Customer.phone c,
   Customer.salesRepEmployeeNumber c).

(** Not after, by the second column. *)
Definition by_second (r1 r2 : value * value * value * value) : Prop :=
  let '(_, b1, _, _) := r1 in
  let '(_, b2, _, _) := r2 in
  leb_of (value_compare b1 b2) = true.

Lemma leb_of_compare_total (a b : value) :
  leb_of (value_compare a b) = true \/ leb_of (value_compare b a) = true.
Proof.
  rewrite (value_compare_antisym b a). destruct (value_compare a b); simpl; auto.
Qed.

Lemma leb_of_compare_trans (a b c : value) :
  leb_of (value_compare a b) = true -> leb_of (value_compare b c) = true ->
  leb_of (value_compare a c) = true.
Proof.
  intros Hab Hbc. pose proof (value_compare_trans a b c) as Ht.
  destruct (value_compare a b), (value_compare b c), (value_compare a c);
    simpl in *; try reflexivity; try discriminate; exfalso; apply Ht; congruence.
Qed.

(** X3. Step 4 returns its rows in the order of the contact's last name;
    when no order has a NULL [orderNumber] it returns exactly the customers
    that no order references, one row per such customer, and a customer
    with an order is never returned. *)
Theorem contacts_without_orders (E : Engine) (db : database)
  (cs : list Customer.row) (os : list Order.row) :
  customers db = Some cs ->
  orders db = Some os ->
  df_contacts E db
  = ok (frame ["contactFirstName"; "contactLastName"; "phone"; "salesRepEmployeeNumber"]
          (fun '(f, l, p, r) => [f; l; p; r]) (select_contacts E cs os))
  /\ StronglySorted by_second (select_contacts E cs os)
  /\ ((forall o, In o os -> Order.orderNumber o <> VNull) ->
      Permutation (select_contacts E cs os)
        (map contact_row (filter (fun c => negb (has_orders os c)) cs))).
Proof.
  intros Hcs Hos. unfold df_contacts. rewrite Hcs, Hos. simpl.
  split; [reflexivity|]. unfold select_contacts. split.
  - eapply StronglySorted_impl; [|apply order_by_strongly_sorted].
    + intros [[[a1 b1] c1] s1] [[[a2 b2] c2] s2] H. exact H.
    + intros [[[a1 b1] c1] s1] [[[a2 b2] c2] s2]. apply leb_of_compare_total.
    + intros [[[a1 b1] c1] s1] [[[a2 b2] c2] s2] [[[a3 b3] c3] s3].
      apply leb_of_compare_trans.
  - intros Hkey.
    eapply perm_trans; [apply order_by_perm|].
    eapply perm_trans; [apply arrange_perm|].
    unfold has_orders, ordered_by.
    rewrite <- (anti_join
                  (fun c o => sql_eq (Customer.customerNumber c) (Order.customerNumber o))
                  (fun o => is_null (Order.orderNumber o)) cs os).
    + rewrite map_map. erewrite map_ext; [apply Permutation_refl|]. now intros [c mo].
    + intros o Ho. specialize (Hkey o Ho). now destruct (Order.orderNumber o).
Qed.

Definition three_customers : list Customer.row :=
  [customer 1 "Ann" "Young" (VInt 1188) (VInt 21000);
   customer 30 "Bob" "Adams" VNull (VInt 0);
   customer 31 "Cy" "Brown" (VInt 1216) (VInt 100)].

Lemma contacts_without_orders_witness :
  (forall o, In o twenty_orders -> Order.orderNumber o <> VNull)
  /\ select_contacts rowid_engine three_customers twenty_orders
     = [ (VText "Bob", VText "Adams", VNull, VNull);
         (VText "Cy", VText "Brown", VNull, VInt 1216) ]
  /\ Permutation (select_contacts rowid_engine three_customers twenty_orders)
       (map contact_row (filter (fun c => negb (has_orders twenty_orders c)) three_customers)).
Proof.
  assert (Hkey : forall o, In o twenty_orders -> Order.orderNumber o <> VNull).
  { intros o Ho. apply in_map_iff in Ho as (n & <- & _). discriminate. }
  split; [exact Hkey|]. split; [vm_compute; reflexivity|].
  exact (proj2 (proj2 (contacts_without_orders rowid_engine
                         {| offices := Some []; employees := Some [];
                            customers := Some three_customers; orders := Some twenty_orders;
                            orderdetails := Some []; products := Some [];
                            payments := Some [] |}
                         three_customers twenty_orders eq_refl eq_refl)) Hkey).
Defined.

Definition has_staff (es : list Employee.row) (o : Office.row) : bool :=
  existsb (fun e => works_in e o) es.

(** X4. When no employee has a NULL [employeeNumber], step 2 returns each
    office without employees exactly as often as the table holds it, and
    nothing else: the left join neither repeats nor drops such an office. *)
Theorem zero_emp_once (E : Engine) (os : list Office.row) (es : list Employee.row) :
  (forall e, In e es -> Employee.employeeNumber e <> VNull) ->
  Permutation (select_zero_emp E os es) (filter (fun o => negb (has_staff es o)) os)
  /\ (List.length (select_zero_emp E os es) <= List.length os)%nat.
Proof.
  intros Hkey.
  assert (Hperm : Permutation (select_zero_emp E os es)
                    (filter (fun o => negb (has_staff es o)) os)).
  { unfold select_zero_emp. eapply perm_trans; [apply arrange_perm|].
    rewrite (anti_join
               (fun o e => sql_eq (Office.officeCode o) (Employee.officeCode e))
               (fun e => is_null (Employee.employeeNumber e)) os es).
    - apply Permutation_refl.
    - intros e He. specialize (Hkey e He). now destruct (Employee.employeeNumber e). }
  split; [exact Hperm|].
  rewrite (Permutation_length Hperm). apply filter_length_le.
Qed.

Lemma zero_emp_once_witness :
  (forall e, In e boston_staff -> Employee.employeeNumber e <> VNull)
  /\ Permutation (select_zero_emp reverse_engine [paris; boston; paris] boston_staff)
       [paris; paris].
Proof.
  assert (Hkey : forall e, In e boston_staff -> Employee.employeeNumber e <> VNull).
  { intros e [<-|[<-|[]]]; discriminate. }
  split; [exact Hkey|].
  exact (proj1 (zero_emp_once reverse_engine [paris; boston; paris] boston_staff Hkey)).
Defined.

(** ** Step 5: every payment of a known customer *)

(** The customer a payment belongs to. *)
Definition payer (cs : list Customer.row) (p : Payment.row) : option Customer.row :=
  referenced_by Customer.customerNumber Payment.customerNumber cs p.

Definition payment_row (c : Customer.row) (p : Payment.row)
  : value * value * value * value :=
  (Customer.contactFirstName c, Customer.contactLastName c, Payment.amount p,
   Payment.paymentDate p).

(** X5. With unique customer numbers, step 5 returns every payment whose
    customer exists exactly once, with that customer's contact names, and
    drops the payments whose [customerNumber] is NULL or names no customer;
    so the report never has more rows than there are payments. *)
Theorem payments_once (E : Engine) (cs : list Customer.row) (ps : list Payment.row) :
  NoDup (map Customer.customerNumber cs) ->
  Permutation (select_payment E cs ps)
    (flat_map (fun p => match payer cs p with
                        | Some c => [payment_row c p]
                        | None => []
                        end) ps)
  /\ (List.length (select_payment E cs ps) <= List.length ps)%nat.
Proof.
  intros Hnd.
  assert (Hperm : Permutation (select_payment E cs ps)
                    (flat_map (fun p => match payer cs p with
                                        | Some c => [payment_row c p]
                                        | None => []
                                        end) ps)).
  { unfold select_payment.
    eapply perm_trans; [apply order_by_perm|].
    eapply perm_trans; [apply arrange_perm|].
    unfold payment_join.
    eapply perm_trans;
      [apply Permutation_map,
         (keyed_inner_join Customer.customerNumber Payment.customerNumber cs ps Hnd)|].
    unfold payer. clear Hnd. induction ps as [|p t IH]; [constructor|].
    cbn [flat_map]. rewrite map_app.
    destruct (referenced_by Customer.customerNumber Payment.customerNumber cs p);
      [|exact IH].
    cbn [map app]. now apply perm_skip. }
  split; [exact Hperm|].
  rewrite (Permutation_length Hperm). clear Hperm.
  induction ps as [|p t IH]; [apply le_n|].
  cbn [flat_map]. rewrite length_app. destruct (payer cs p); simpl; lia.
Qed.

Definition stray_payments : list Payment.row :=
  [payment 112 "100.00" "2004-01-01"; payment 999 "7.5" "2004-01-15";
   {| Payment.customerNumber := VNull; Payment.amount := VText "3";
      Payment.paymentDate := VText "2004-01-20" |};
   payment 103 "250" "2004-02-02"].

Lemma payments_once_witness :
  NoDup (map Customer.customerNumber two_customers)
  /\ select_payment rowid_engine two_customers stray_payments
     = [ (VText "Carine", VText "Schmitt", VText "250", VText "2004-02-02");
         (VText "Jean", VText "King", VText "100.00", VText "2004-01-01") ]
  /\ (List.length (select_payment rowid_engine two_customers stray_payments) <= 4)%nat.
Proof.
  assert (Hnd : NoDup (map Customer.customerNumber two_customers)).
  { simpl. repeat (constructor; [simpl; intuition discriminate|]). constructor. }
  split; [exact Hnd|]. split; [vm_compute; reflexivity|].
  exact (proj2 (payments_once rowid_engine two_customers stray_payments Hnd)).
Defined.

(** ** Step 8: distinct purchasers per product *)

(** Some order holds an order detail of the product code. *)
Definition bought (ods : list OrderDetail.row) (os : list Order.row) (code : value) : Prop :=
  exists od o, In od ods /\ In o os
               /\ sql_eq (OrderDetail.orderNumber od) (Order.orderNumber o) = true
               /\ OrderDetail.productCode od = code.

Section MarketReach.
Variables (ps : list Product.row) (ods : list OrderDetail.row) (os : list Order.row).

Let joined : list (Product.row * OrderDetail.row * Order.row) :=
  inner_join
    (fun '(_, od) o => sql_eq (OrderDetail.orderNumber od) (Order.orderNumber o))
    (sold_join ps ods) os.

Let by_product (x : Product.row * OrderDetail.row * Order.row) : value * value :=
  let '(p, _, _) := x in (Product.productName p, Product.productCode p).

Let buyer (x : Product.row * OrderDetail.row * Order.row) : value :=
  let '(_, o) := x in Order.customerNumber o.

Lemma in_reach_join (p : Product.row) (od : OrderDetail.row) (o : Order.row) :
  In (p, od, o) joined <->
  In p ps /\ In od ods /\ In o os
  /\ sql_eq (Product.productCode p) (OrderDetail.productCode od) = true
  /\ sql_eq (OrderDetail.orderNumber od) (Order.orderNumber o) = true.
Proof.
  unfold joined. rewrite in_inner_join. unfold sold_join. rewrite in_inner_join. tauto.
Qed.

Lemma reach_group_purchasers (p : Product.row) (od : OrderDetail.row) (o : Order.row) :
  In (p, od, o) joined ->
  sql_count_distinct (map buyer (filter (has_key key2_dec by_product (by_product (p, od, o)))
                                   joined))
  = Z.of_nat (List.length (purchasers ods os (Product.productCode p))).
Proof.
  intros Hw. apply in_reach_join in Hw as (Hp & _ & _ & Hcode & _).
  apply sql_eq_true in Hcode as [_ Hnn].
  unfold sql_count_distinct, purchasers. f_equal.
  apply Permutation_length. apply NoDup_Permutation; try apply NoDup_nodup.
  intros v. rewrite !nodup_In, !in_non_null, !in_map_iff.
  split; intros [Hin Hv]; (split; [|exact Hv]).
  - destruct Hin as ([[p' od'] o'] & <- & Hin). apply filter_In in Hin as [Hin Hk].
    apply has_key_true in Hk. simpl in Hk. injection Hk as _ Hc.
    apply in_reach_join in Hin as (_ & Hod & Ho & Hcode' & Hon).
    apply sql_eq_true in Hcode' as [Heq _].
    exists o'. split; [reflexivity|]. apply filter_In. split; [exact Ho|].
    apply existsb_exists. exists od'. split; [exact Hod|].
    rewrite Hon, andb_true_r.
    destruct (value_eq_dec (OrderDetail.productCode od') (Product.productCode p));
      [reflexivity | congruence].
  - destruct Hin as (o' & <- & Hin). apply filter_In in Hin as [Ho Hex].
    apply existsb_exists in Hex as (od' & Hod & Hboth).
    apply andb_true_iff in Hboth as [Hk Hon].
    destruct (value_eq_dec (OrderDetail.productCode od') (Product.productCode p))
      as [Hc|]; [|discriminate].
    exists (p, od', o'). split; [reflexivity|]. apply filter_In. split.
    + apply in_reach_join. repeat split; try assumption.
      rewrite Hc. now apply sql_eq_same.
    + now apply has_key_true.
Qed.

Lemma reach_rows_spec (name code : value) (n : Z) :
  In (name, code, n)
    (map (fun '(k, g) => (k, sql_count_distinct (map buyer g)))
       (group_by key2_dec by_product joined))
  <-> (exists p, In p ps /\ Product.productName p = name /\ Product.productCode p = code)
      /\ code <> VNull
      /\ bought ods os code
      /\ n = Z.of_nat (List.length (purchasers ods os code)).
Proof.
  rewrite in_map_iff. split.
  - intros ([k g] & Heq & Hin). apply in_group_by in Hin as [Hk ->].
    apply in_map_iff in Hk as ([[p od] o] & <- & Hw).
    rewrite (reach_group_purchasers p od o Hw) in Heq. simpl in Heq.
    injection Heq as <- <- <-.
    apply in_reach_join in Hw as (Hp & Hod & Ho & Hcode & Hon).
    apply sql_eq_true in Hcode as [Heq Hnn].
    split; [now exists p|]. split; [exact Hnn|]. split; [|reflexivity].
    exists od, o. auto.
  - intros ((p & Hp & <- & <-) & Hnn & (od & o & Hod & Ho & Hon & Hc) & ->).
    assert (Hw : In (p, od, o) joined).
    { apply in_reach_join. repeat split; try assumption.
      rewrite Hc. now apply sql_eq_same. }
    exists (by_product (p, od, o),
            filter (has_key key2_dec by_product (by_product (p, od, o))) joined).
    split.
    + now rewrite (reach_group_purchasers p od o Hw).
    + apply in_group_by. split; [|reflexivity]. now apply in_map.
Qed.
End MarketReach.

(** X6. Step 8 has one row per product name and code that some order holds;
    its [numpurchasers] is the number of distinct non-NULL customers of the
    orders holding the product; the rows are in descending order of
    [numpurchasers]; and a product code is in the low-demand set of step 10
    exactly when step 8 gives it fewer than 20 purchasers. *)
Theorem market_reach (E : Engine)
  (ps : list Product.row) (ods : list OrderDetail.row) (os : list Order.row) :
  (forall name code n,
      In (name, code, n) (select_total_customers E ps ods os)
      <-> (exists p, In p ps /\ Product.productName p = name /\ Product.productCode p = code)
          /\ code <> VNull
          /\ bought ods os code
          /\ n = Z.of_nat (List.length (purchasers ods os code)))
  /\ NoDup (map fst (select_total_customers E ps ods os))
  /\ StronglySorted (fun r1 r2 => (snd r2 <= snd r1)%Z) (select_total_customers E ps ods os)
  /\ (forall code,
        (exists name n, In (name, code, n) (select_total_customers E ps ods os)
                        /\ (n < 20)%Z)
        <-> (In code (low_demand_products ods os) /\ code <> VNull
             /\ exists p, In p ps /\ Product.productCode p = code)).
Proof.
  assert (Hperm : Permutation (select_total_customers E ps ods os)
                    (map (fun '(k, g) =>
                            (k, sql_count_distinct
                                  (map (fun '(_, o) => Order.customerNumber o) g)))
                       (group_by key2_dec
                          (fun '(p, _, _) => (Product.productName p, Product.productCode p))
                          (inner_join
                             (fun '(_, od) o =>
                                sql_eq (OrderDetail.orderNumber od) (Order.orderNumber o))
                             (sold_join ps ods) os)))).
  { unfold select_total_customers.
    eapply perm_trans; [apply order_by_perm | apply arrange_perm]. }
  assert (Hrows : forall name code n,
             In (name, code, n) (select_total_customers E ps ods os)
             <-> (exists p, In p ps /\ Product.productName p = name
                            /\ Product.productCode p = code)
                 /\ code <> VNull
                 /\ bought ods os code
                 /\ n = Z.of_nat (List.length (purchasers ods os code))).
  { intros name code n. rewrite <- reach_rows_spec. split; apply Permutation_in;
      [exact Hperm | now apply Permutation_sym]. }
  split; [exact Hrows|]. split; [|split].
  - eapply Permutation_NoDup; [apply Permutation_map, Permutation_sym, Hperm|].
    rewrite map_map. erewrite map_ext; [apply group_by_keys_nodup|]. now intros [k g].
  - unfold select_total_customers.
    eapply StronglySorted_impl; [|apply order_by_strongly_sorted].
    + intros x y Hxy. now apply Z.leb_le.
    + intros x y. rewrite !Z.leb_le. lia.
    + intros x y z. rewrite !Z.leb_le. lia.
  - intros code. split.
    + intros (name & n & Hin & Hlt).
      apply Hrows in Hin as ((p & Hp & _ & Hc) & Hnn & (od & o & Hod & Ho & Hon & Hcode) & ->).
      split; [|split; [exact Hnn | now exists p]].
      apply in_low_demand. split; [now exists od, o | lia].
    + intros (Hlow & Hnn & p & Hp & Hc).
      apply in_low_demand in Hlow as ((od & o & Hod & Ho & Hon & Hcode) & Hlt).
      exists (Product.productName p), (Z.of_nat (List.length (purchasers ods os code))).
      split; [|lia]. apply Hrows. split; [now exists p|]. split; [exact Hnn|].
      split; [now exists od, o | reflexivity].
Qed.

Definition reach_products : list Product.row :=
  [product "S18_3232" "1992 Ferrari 360 Spider red";
   product "S24_3969" "1936 Mercedes Benz 500k Roadster";
   product "S99_0000" "never ordered"].

Lemma market_reach_witness :
  select_total_customers rowid_engine reach_products popular_lines twenty_orders
  = [ (VText "1992 Ferrari 360 Spider red", VText "S18_3232", 20);
      (VText "1936 Mercedes Benz 500k Roadster", VText "S24_3969", 1) ]
  /\ In (VText "S24_3969") (low_demand_products popular_lines twenty_orders)
  /\ ~ In (VText "S18_3232") (low_demand_products popular_lines twenty_orders).
Proof.
  destruct (market_reach rowid_engine reach_products popular_lines twenty_orders)
    as (Hrows & _ & _ & Hlow).
  split; [vm_compute; reflexivity|]. split.
  - apply (Hlow (VText "S24_3969")).
    exists (VText "1936 Mercedes Benz 500k Roadster"), 1. split; [|lia].
    vm_compute. tauto.
  - intros Hin.
    assert (Hex : exists name n,
               In (name, VText "S18_3232", n)
                 (select_total_customers rowid_engine reach_products popular_lines
                    twenty_orders) /\ (n < 20)%Z).
    { apply (Hlow (VText "S18_3232")). split; [exact Hin|]. split; [discriminate|].
      exists (product "S18_3232" "1992 Ferrari 360 Spider red"). split; [now left | reflexivity]. }
    destruct Hex as (name & n & Hrow & Hlt).
    apply Hrows in Hrow as (_ & _ & _ & Hn).
    assert (Hlen : List.length (purchasers popular_lines twenty_orders (VText "S18_3232"))
                   = 20%nat) by (vm_compute; reflexivity).
    rewrite Hlen in Hn. lia.
Defined.

(** ** Grouping keeps every row *)

Lemma perm_filter {A : Type} (p : A -> bool) (l l' : list A) :
  Permutation l l' -> Permutation (filter p l) (filter p l').
Proof.
  induction 1 as [|x l1 l2 _ IH|x y l1|l1 l2 l3 _ IH1 _ IH2]; simpl.
  - constructor.
  - destruct (p x); [now constructor | exact IH].
  - destruct (p x), (p y); try apply Permutation_refl. apply perm_swap.
  - eapply perm_trans; eassumption.
Qed.

Lemma filter_head {A : Type} (p : A -> bool) (a : A) (l : list A) :
  filter p (a :: l) = if p a then a :: filter p l else filter p l.
Proof. reflexivity. Qed.

Section Partition.
Context {A K : Type} (key_dec : forall x y : K, {x = y} + {x <> y}) (key : A -> K).

Lemma groups_skip (a : A) (l : list A) (ks : list K) :
  ~ In (key a) ks ->
  flat_map (fun k => filter (has_key key_dec key k) (a :: l)) ks
  = flat_map (fun k => filter (has_key key_dec key k) l) ks.
Proof.
  induction ks as [|k t IH]; intros Hnot; [reflexivity|].
  cbn [flat_map]. rewrite (filter_head (has_key key_dec key k)).
  destruct (has_key key_dec key k a) eqn:Hk.
  - apply has_key_true in Hk. elim Hnot. now left.
  - rewrite IH; [reflexivity|]. intros Hin. apply Hnot. now right.
Qed.

Lemma groups_insert (a : A) (l : list A) (ks : list K) :
  NoDup ks -> In (key a) ks ->
  Permutation (flat_map (fun k => filter (has_key key_dec key k) (a :: l)) ks)
    (a :: flat_map (fun k => filter (has_key key_dec key k) l) ks).
Proof.
  induction ks as [|k t IH]; intros Hnd Hin; [destruct Hin|].
  inversion Hnd as [|? ? Hnot Hnd']; subst.
  cbn [flat_map]. rewrite (filter_head (has_key key_dec key k)).
  destruct (has_key key_dec key k a) eqn:Hk.
  - apply has_key_true in Hk. subst k. rewrite groups_skip by exact Hnot.
    apply Permutation_refl.
  - destruct Hin as [Heq|Hin].
    + symmetry in Heq. apply (has_key_true key_dec key) in Heq. congruence.
    + eapply perm_trans; [apply Permutation_app_head, (IH Hnd' Hin)|].
      apply Permutation_sym, Permutation_middle.
Qed.

(** The groups of [GROUP BY] hold each row of the input once. *)
Lemma group_by_partition (l : list A) :
  Permutation (flat_map snd (group_by key_dec key l)) l.
Proof.
  unfold group_by. rewrite flat_map_concat_map, map_map. cbn [snd].
  rewrite <- flat_map_concat_map.
  assert (Hgen : forall ks m, NoDup ks -> (forall a, In a m -> In (key a) ks) ->
             Permutation (flat_map (fun k => filter (has_key key_dec key k) m) ks) m).
  { intros ks m Hnd. induction m as [|a t IH]; intros Hall.
    - induction ks as [|k ks' IHk]; [constructor|].
      inversion Hnd; subst. now apply IHk.
    - eapply perm_trans; [apply groups_insert; [exact Hnd | apply Hall; now left]|].
      apply perm_skip, IH. intros b Hb. apply Hall. now right. }
  apply Hgen; [apply NoDup_nodup|].
  intros a Ha. apply nodup_In. now apply in_map.
Qed.
End Partition.

Lemma sql_count_app (l1 l2 : list value) :
  sql_count (l1 ++ l2) = sql_count l1 + sql_count l2.
Proof.
  unfold sql_count, non_null. rewrite filter_app, length_app. lia.
Qed.

Lemma sql_count_perm (l1 l2 : list value) :
  Permutation l1 l2 -> sql_count l1 = sql_count l2.
Proof.
  intros H. unfold sql_count, non_null. f_equal.
  apply Permutation_length. now apply perm_filter.
Qed.

Lemma total_perm (l1 l2 : list Z) : Permutation l1 l2 -> total l1 = total l2.
Proof.
  unfold total. induction 1; simpl; try lia.
Qed.

(** Counting a column group by group counts it over all rows. *)
Lemma count_by_group {A K : Type} (key_dec : forall x y : K, {x = y} + {x <> y})
  (key : A -> K) (col : A -> value) (l : list A) :
  total (map (fun kg : K * list A => sql_count (map col (snd kg))) (group_by key_dec key l))
  = sql_count (map col l).
Proof.
  rewrite <- (sql_count_perm _ _ (Permutation_map col (group_by_partition key_dec key l))).
  induction (group_by key_dec key l) as [|[k g] gs IH]; [reflexivity|].
  cbn [map flat_map snd total fold_right]. rewrite map_app, sql_count_app.
  unfold total in IH. now rewrite IH.
Qed.

(** ** Step 9: customers per office *)

Lemma inner_join_ext {A B : Type} (on on' : A -> B -> bool) (l : list A) (r : list B) :
  (forall a b, on a b = on' a b) -> inner_join on l r = inner_join on' l r.
Proof.
  intros H. unfold inner_join. apply flat_map_ext. intros a.
  f_equal. apply filter_ext. apply H.
Qed.

Lemma existsb_of_map {A B : Type} (f : B -> bool) (g : A -> B) (l : list A) :
  existsb f (map g l) = existsb (fun x => f (g x)) l.
Proof. induction l as [|a t IH]; [reflexivity|]. simpl. now rewrite IH. Qed.

Lemma existsb_perm {A : Type} (f : A -> bool) (l l' : list A) :
  Permutation l l' -> existsb f l = existsb f l'.
Proof.
  intros H. apply eq_true_iff_eq. rewrite !existsb_exists.
  split; intros (x & Hx & Hf); exists x; (split; [|exact Hf]).
  - now apply (Permutation_in _ H).
  - now apply (Permutation_in _ (Permutation_sym H)).
Qed.

(** The right rows of a join against unique keys: those with a match. *)
Lemma keyed_join_right {A B : Type} (key : A -> value) (fk : B -> value)
  (l : list A) (r : list B) :
  NoDup (map key l) ->
  Permutation (map snd (inner_join (fun a b => sql_eq (key a) (fk b)) l r))
    (filter (fun b => existsb (fun a => sql_eq (key a) (fk b)) l) r).
Proof.
  intros Hnd.
  eapply perm_trans; [apply Permutation_map, (keyed_inner_join key fk l r Hnd)|].
  unfold referenced_by. clear Hnd. induction r as [|b t IH]; [constructor|].
  cbn [flat_map]. rewrite map_app, (filter_head (fun b0 => existsb _ l)).
  destruct (find (fun a => sql_eq (key a) (fk b)) l) as [a|] eqn:Hf.
  - apply find_some in Hf as [Ha Hon].
    replace (existsb (fun a0 => sql_eq (key a0) (fk b)) l) with true
      by (symmetry; apply existsb_exists; now exists a).
    cbn [map app snd]. now apply perm_skip.
  - replace (existsb (fun a0 => sql_eq (key a0) (fk b)) l) with false; [exact IH|].
    symmetry. destruct (existsb (fun a0 => sql_eq (key a0) (fk b)) l) eqn:Hex; [|reflexivity].
    apply existsb_exists in Hex as (a & Ha & Hon).
    now rewrite (find_none _ _ Hf a Ha) in Hon.
Qed.

(** The employee belongs to an office of the table. *)
Definition has_office (os : list Office.row) (e : Employee.row) : bool :=
  existsb (fun o => works_in e o) os.

(** The customer's sales representative is an employee with an office. *)
Definition served (os : list Office.row) (es : list Employee.row) (c : Customer.row) : bool :=
  existsb (fun e => sql_eq (Employee.employeeNumber e) (Customer.salesRepEmployeeNumber c))
    (filter (has_office os) es).

Section OfficeCustomers.
Variables (os : list Office.row) (es : list Employee.row) (cs : list Customer.row).

Let staffed : list (Office.row * Employee.row) :=
  inner_join (fun o e => sql_eq (Office.officeCode o) (Employee.officeCode e)) os es.

Let joined : list (Office.row * Employee.row * Customer.row) :=
  inner_join
    (fun '(_, e) c =>
       sql_eq (Employee.employeeNumber e) (Customer.salesRepEmployeeNumber c))
    staffed cs.

Let by_office (x : Office.row * Employee.row * Customer.row) : value * value :=
  let '(o, _, _) := x in (Office.officeCode o, Office.city o).

Let client (x : Office.row * Employee.row * Customer.row) : value :=
  let '(_, c) := x in Customer.customerNumber c.

Lemma office_rows_total :
  total (map snd (map (fun '(k, g) => (k, sql_count (map client g)))
                    (group_by key2_dec by_office joined)))
  = sql_count (map Customer.customerNumber (map snd joined)).
Proof.
  rewrite map_map.
  erewrite map_ext; [rewrite (count_by_group key2_dec by_office client joined)|].
  - rewrite map_map. f_equal. apply map_ext. now intros [oe c].
  - now intros [k g].
Qed.

Lemma staffed_employees :
  NoDup (map Office.officeCode os) ->
  Permutation (map snd staffed) (filter (has_office os) es).
Proof.
  intros Hnd. unfold staffed.
  apply (keyed_join_right Office.officeCode Employee.officeCode os es Hnd).
Qed.

Lemma joined_customers :
  NoDup (map Office.officeCode os) ->
  NoDup (map Employee.employeeNumber es) ->
  Permutation (map snd joined) (filter (served os es) cs).
Proof.
  intros Hos Hes. unfold joined.
  rewrite (inner_join_ext _
             (fun oe c => sql_eq (Employee.employeeNumber (snd oe))
                            (Customer.salesRepEmployeeNumber c)))
    by (now intros [o e] c).
  eapply perm_trans.
  - apply (keyed_join_right (fun oe => Employee.employeeNumber (snd oe))
             Customer.salesRepEmployeeNumber staffed cs).
    rewrite <- (map_map snd Employee.employeeNumber).
    eapply Permutation_NoDup;
      [apply Permutation_map, Permutation_sym, (staffed_employees Hos)|].
    now apply NoDup_map_filter.
  - erewrite filter_ext; [apply Permutation_refl|].
    intros c. unfold served.
    rewrite <- (existsb_perm _ _ _ (staffed_employees Hos)).
    now rewrite existsb_of_map.
Qed.
End OfficeCustomers.

(** X7. Step 9 has one row per office code and city, and only for offices
    that have an employee with a customer: an office without customers is
    not listed.  With unique office codes and employee numbers the counts
    add up to the number of customers, with a customer number, whose sales
    representative is an employee of an office: each such customer is
    counted once, and customers without such a representative in no row. *)
Theorem office_customer_counts (E : Engine)
  (os : list Office.row) (es : list Employee.row) (cs : list Customer.row) :
  (forall code city n,
      In (code, city, n) (select_customers E os es cs) ->
      exists o e c, In o os /\ In e es /\ In c cs
                    /\ works_in e o = true
                    /\ sql_eq (Employee.employeeNumber e)
                         (Customer.salesRepEmployeeNumber c) = true
                    /\ Office.officeCode o = code /\ Office.city o = city)
  /\ NoDup (map fst (select_customers E os es cs))
  /\ (NoDup (map Office.officeCode os) ->
      NoDup (map Employee.employeeNumber es) ->
      total (map snd (select_customers E os es cs))
      = sql_count (map Customer.customerNumber (filter (served os es) cs))).
Proof.
  assert (Hperm : Permutation (select_customers E os es cs)
                    (map (fun '(k, g) =>
                            (k, sql_count (map (fun '(_, c) => Customer.customerNumber c) g)))
                       (group_by key2_dec
                          (fun '(o, _, _) => (Office.officeCode o, Office.city o))
                          (inner_join
                             (fun '(_, e) c =>
                                sql_eq (Employee.employeeNumber e)
                                  (Customer.salesRepEmployeeNumber c))
                             (inner_join
                                (fun o e => sql_eq (Office.officeCode o) (Employee.officeCode e))
                                os es)
                             cs)))).
  { unfold select_customers. apply arrange_perm. }
  split; [|split].
  - intros code city n Hin. apply (Permutation_in _ Hperm) in Hin.
    apply in_map_iff in Hin as ([k g] & Heq & Hin). injection Heq as Hk' _. subst k.
    apply in_group_by in Hin as [Hk _].
    apply in_map_iff in Hk as ([[o e] c] & Hkey & Hj). injection Hkey as <- <-.
    apply in_inner_join in Hj as (Hoe & Hc & Hrep).
    apply in_inner_join in Hoe as (Ho & He & Hw).
    exists o, e, c. unfold works_in. auto 10.
  - eapply Permutation_NoDup; [apply Permutation_map, Permutation_sym, Hperm|].
    rewrite map_map. erewrite map_ext; [apply group_by_keys_nodup|]. now intros [k g].
  - intros Hos Hes.
    rewrite (total_perm _ _ (Permutation_map snd Hperm)).
    rewrite office_rows_total.
    apply sql_count_perm, Permutation_map. now apply joined_customers.
Qed.

Definition branch_staff : list Employee.row :=
  [employee 1188 "Julie" "Firrelli" (VText "1"); employee 1216 "Steve" "Patterson" (VText "1");
   employee 1102 "Gerard" "Bondur" (VText "4"); employee 1999 "Ann" "Onymous" VNull].

Definition branch_customers : list Customer.row :=
  [customer 1 "a" "A" (VInt 1188) (VInt 1); customer 2 "b" "B" (VInt 1188) (VInt 1);
   customer 3 "c" "C" (VInt 1216) (VInt 1); customer 4 "d" "D" (VInt 1999) (VInt 1);
   customer 5 "e" "E" VNull (VInt 1)].

Lemma office_customer_counts_witness :
  NoDup (map Office.officeCode two_offices)
  /\ NoDup (map Employee.employeeNumber branch_staff)
  /\ select_customers rowid_engine two_offices branch_staff branch_customers
     = [(VText "1", VText "Boston", 3)]
  /\ total (map snd (select_customers rowid_engine two_offices branch_staff branch_customers))
     = sql_count (map Customer.customerNumber
                    (filter (served two_offices branch_staff) branch_customers)).
Proof.
  assert (Hos : NoDup (map Office.officeCode two_offices)).
  { simpl. repeat (constructor; [simpl; intuition discriminate|]). constructor. }
  assert (Hes : NoDup (map Employee.employeeNumber branch_staff)).
  { simpl. repeat (constructor; [simpl; intuition discriminate|]). constructor. }
  split; [exact Hos|]. split; [exact Hes|]. split; [vm_compute; reflexivity|].
  exact (proj2 (proj2 (office_customer_counts rowid_engine two_offices branch_staff
                         branch_customers)) Hos Hes).
Defined.

(** ** Step 10: the employees listed *)

(** Not after, by the third column and then the second. *)
Definition last_then_first (r1 r2 : value * value * value * value * value) : Prop :=
  let '(_, f1, l1, _, _) := r1 in
  let '(_, f2, l2, _, _) := r2 in
  by_two_keys l1 f1 l2 f2 = true.

Lemma in_subquery_true (v : value) (l : list value) :
  in_subquery v l = true <-> In v l /\ v <> VNull.
Proof.
  unfold in_subquery. rewrite existsb_exists. split.
  - intros (x & Hx & Heq). apply sql_eq_true in Heq as [-> Hnn]. auto.
  - intros [Hin Hnn]. exists v. split; [exact Hin | now apply sql_eq_same].
Qed.

(** X8. Step 10 lists no row twice, in the order of last name then first
    name, and lists an employee with an office exactly when a customer of
    the employee placed an order that holds a product, with a product code,
    bought by fewer than 20 distinct customers. *)
Theorem under_20_rows (E : Engine)
  (es : list Employee.row) (ofs : list Office.row) (cs : list Customer.row)
  (os : list Order.row) (ods : list OrderDetail.row) :
  NoDup (select_under_20 E es ofs cs os ods)
  /\ StronglySorted last_then_first (select_under_20 E es ofs cs os ods)
  /\ (forall row,
        In row (select_under_20 E es ofs cs os ods)
        <-> exists e o c ord od,
              In e es /\ In o ofs /\ In c cs /\ In ord os /\ In od ods
              /\ works_in e o = true
              /\ sql_eq (Employee.employeeNumber e) (Customer.salesRepEmployeeNumber c) = true
              /\ ordered_by c ord = true
              /\ sql_eq (Order.orderNumber ord) (OrderDetail.orderNumber od) = true
              /\ OrderDetail.productCode od <> VNull
              /\ (List.length (purchasers ods os (OrderDetail.productCode od)) < 20)%nat
              /\ row = (Employee.employeeNumber e, Employee.firstName e, Employee.lastName e,
                        Office.city o, Office.officeCode o)).
Proof.
  set (listed := filter
                   (fun '(_, _, _, _, od) =>
                      in_subquery (OrderDetail.productCode od) (low_demand_products ods os))
                   (inner_join
                      (fun '(_, _, _, o) od =>
                         sql_eq (Order.orderNumber o) (OrderDetail.orderNumber od))
                      (inner_join
                         (fun '(_, _, c) o =>
                            sql_eq (Customer.customerNumber c) (Order.customerNumber o))
                         (inner_join
                            (fun '(e, _) c =>
                               sql_eq (Employee.employeeNumber e)
                                 (Customer.salesRepEmployeeNumber c))
                            (inner_join
                               (fun e o => sql_eq (Employee.officeCode e) (Office.officeCode o))
                               es ofs)
                            cs)
                         os)
                      ods)).
  set (project :=
         fun x : Employee.row * Office.row * Customer.row * Order.row * OrderDetail.row =>
           let '(e, o, _, _, _) := x in
           (Employee.employeeNumber e, Employee.firstName e, Employee.lastName e,
            Office.city o, Office.officeCode o)).
  assert (Hperm : Permutation (select_under_20 E es ofs cs os ods)
                    (nodup key5_dec (map project listed))).
  { unfold select_under_20. eapply perm_trans; [apply order_by_perm | apply arrange_perm]. }
  split; [|split].
  - eapply Permutation_NoDup; [apply Permutation_sym, Hperm | apply NoDup_nodup].
  - unfold select_under_20.
    eapply StronglySorted_impl; [|apply order_by_strongly_sorted].
    + intros [[[[n1 f1] l1] c1] o1] [[[[n2 f2] l2] c2] o2] H. exact H.
    + intros [[[[n1 f1] l1] c1] o1] [[[[n2 f2] l2] c2] o2]. apply by_two_keys_total.
    + intros [[[[n1 f1] l1] c1] o1] [[[[n2 f2] l2] c2] o2] [[[[n3 f3] l3] c3] o3].
      apply by_two_keys_trans.
  - intros row. split.
    + intros Hin. apply (Permutation_in _ Hperm) in Hin. apply nodup_In in Hin.
      apply in_map_iff in Hin as ([[[[e o] c] ord] od] & <- & Hin).
      apply filter_In in Hin as [Hin Hlow].
      apply in_inner_join in Hin as (Hin & Hod & H4).
      apply in_inner_join in Hin as (Hin & Hord & H3).
      apply in_inner_join in Hin as (Hin & Hc & H2).
      apply in_inner_join in Hin as (He & Ho & H1).
      apply in_subquery_true in Hlow as [Hlow Hnn].
      apply in_low_demand in Hlow as [_ Hlt].
      exists e, o, c, ord, od. unfold works_in, ordered_by.
      apply sql_eq_true in H1 as H1'. destruct H1' as [Hcode Hcn].
      repeat split; try assumption.
      rewrite <- Hcode. now apply sql_eq_same.
    + intros (e & o & c & ord & od & He & Ho & Hc & Hord & Hod & H1 & H2 & H3 & H4
              & Hnn & Hlt & ->).
      apply (Permutation_in _ (Permutation_sym Hperm)). apply nodup_In.
      apply in_map_iff. exists (e, o, c, ord, od). split; [reflexivity|].
      apply filter_In. split.
      * apply in_inner_join. split; [|split; [exact Hod | exact H4]].
        apply in_inner_join. split; [|split; [exact Hord | exact H3]].
        apply in_inner_join. split; [|split; [exact Hc | exact H2]].
        apply in_inner_join. split; [exact He|]. split; [exact Ho|].
        unfold works_in in H1. apply sql_eq_true in H1 as [Hcode Hcn].
        rewrite <- Hcode. now apply sql_eq_same.
      * apply in_subquery_true. split; [|exact Hnn].
        apply in_low_demand. split; [|exact Hlt].
        exists od, ord. repeat split; try assumption.
        apply sql_eq_true in H4 as [Heq Hn]. rewrite <- Heq. now apply sql_eq_same.
Qed.

Lemma under_20_rows_witness :
  select_under_20 rowid_engine
    [employee 1188 "Julie" "Firrelli" (VText "1"); employee 1216 "Steve" "Patterson" (VText "1")]
    [boston]
    [customer 1 "a" "A" (VInt 1188) (VInt 21000); customer 2 "b" "B" (VInt 1216) (VInt 71800)]
    twenty_orders popular_lines
  = [(VInt 1188, VText "Julie", VText "Firrelli", VText "Boston", VText "1")]
  /\ NoDup (select_under_20 rowid_engine
              [employee 1188 "Julie" "Firrelli" (VText "1");
               employee 1216 "Steve" "Patterson" (VText "1")]
              [boston]
              [customer 1 "a" "A" (VInt 1188) (VInt 21000);
               customer 2 "b" "B" (VInt 1216) (VInt 71800)]
              twenty_orders popular_lines).
Proof.
  split; [vm_compute; reflexivity|].
  exact (proj1 (under_20_rows rowid_engine _ _ _ _ _)).
Defined.

(** ** Step 10 on the same data again *)

(** The rows step 10 lists before it orders them: the distinct projections
    of the joined rows whose product is in low demand. *)
Definition under_20_distinct
  (es : list Employee.row) (ofs : list Office.row) (cs : list Customer.row)
  (os : list Order.row) (ods : list OrderDetail.row)
  : list (value * value * value * value * value) :=
  nodup key5_dec
    (map (fun '(e, o, _, _, _) =>
            (Employee.employeeNumber e, Employee.firstName e, Employee.lastName e,
             Office.city o, Office.officeCode o))
       (filter
          (fun '(_, _, _, _, od) =>
             in_subquery (OrderDetail.productCode od) (low_demand_products ods os))
          (inner_join
             (fun '(_, _, _, o) od =>
                sql_eq (Order.orderNumber o) (OrderDetail.orderNumber od))
             (inner_join
                (fun '(_, _, c) o =>
                   sql_eq (Customer.customerNumber c) (Order.customerNumber o))
                (inner_join
                   (fun '(e, _) c =>
                      sql_eq (Employee.employeeNumber e)
                        (Customer.salesRepEmployeeNumber c))
                   (inner_join
                      (fun e o => sql_eq (Employee.officeCode e) (Office.officeCode o))
                      es ofs)
                   cs)
                os)
             ods))).

(** The two sort keys of a listed row: last name, first name. *)
Definition name_key (r : value * value * value * value * value) : value * value :=
  let '(_, f, l, _, _) := r in (l, f).


Lemma under_20_is_distinct (E : Engine)
  (es : list Employee.row) (ofs : list Office.row) (cs : list Customer.row)
  (os : list Order.row) (ods : list OrderDetail.row) :
  Permutation (select_under_20 E es ofs cs os ods) (under_20_distinct es ofs cs os ods).
Proof.
  unfold select_under_20, under_20_distinct.
  eapply perm_trans; [apply order_by_perm | apply arrange_perm].
Qed.

Lemma under_20_by_name (E : Engine)
  (es : list Employee.row) (ofs : list Office.row) (cs : list Customer.row)
  (os : list Order.row) (ods : list OrderDetail.row) :
  StronglySorted last_then_first (select_under_20 E es ofs cs os ods).
Proof.
  unfold select_under_20.
  eapply StronglySorted_impl; [|apply order_by_strongly_sorted].
  - intros [[[[n1 f1] l1] c1] o1] [[[[n2 f2] l2] c2] o2] H. exact H.
  - intros [[[[n1 f1] l1] c1] o1] [[[[n2 f2] l2] c2] o2]. apply by_two_keys_total.
  - intros [[[[n1 f1] l1] c1] o1] [[[[n2 f2] l2] c2] o2] [[[[n3 f3] l3] c3] o3].
    apply by_two_keys_trans.
Qed.

Lemma by_two_keys_antisym (a b a' b' : value) :
  by_two_keys a b a' b' = true -> by_two_keys a' b' a b = true -> a = a' /\ b = b'.
Proof.
  unfold by_two_keys.
  rewrite (value_compare_antisym a' a), (value_compare_antisym b' b).
  destruct (value_compare a a') eqn:Ha; simpl; try discriminate.
  - apply value_compare_eq in Ha.
    destruct (value_compare b b') eqn:Hb; simpl; try discriminate.
    apply value_compare_eq in Hb. auto.
Qed.

Lemma one_row_per_key {A B : Type} (f : A -> B) (l : list A) :
  NoDup (map f l) -> forall x y, In x l -> In y l -> f x = f y -> x = y.
Proof.
  induction l as [|a t IH]; simpl; intros Hnd x y Hx Hy Hf; [contradiction|].
  apply NoDup_cons_iff in Hnd as [Hna Hnd].
  destruct Hx as [-> | Hx], Hy as [-> | Hy]; auto.
  - exfalso. apply Hna. rewrite Hf. now apply in_map.
  - exfalso. apply Hna. rewrite <- Hf. now apply in_map.
Qed.

Lemma same_names_same_row (l : list (value * value * value * value * value)) :
  NoDup (map name_key l) ->
  forall r1 r2, In r1 l -> In r2 l ->
    last_then_first r1 r2 -> last_then_first r2 r1 -> r1 = r2.
Proof.
  intros Hnd r1 r2 H1 H2 H12 H21.
  apply (one_row_per_key name_key l Hnd); try assumption.
  destruct r1 as [[[[n1 f1] l1] c1] o1], r2 as [[[[n2 f2] l2] c2] o2].
  unfold last_then_first in H12, H21. simpl.
  destruct (by_two_keys_antisym _ _ _ _ H12 H21) as [-> ->]. reflexivity.
Qed.

(** Two sorted lists with the same elements are one list when no two
    different elements tie. *)
Lemma sorted_lists_agree {A : Type} (R : A -> A -> Prop) (l1 : list A) :
  forall l2,
    StronglySorted R l1 -> StronglySorted R l2 -> Permutation l1 l2 -> NoDup l1 ->
    (forall x y, In x l1 -> In y l1 -> R x y -> R y x -> x = y) ->
    l1 = l2.
Proof.
  induction l1 as [|a t IH]; intros l2 Hs1 Hs2 Hperm Hnd Htie.
  - apply Permutation_nil in Hperm. now subst.
  - destruct l2 as [|b u]; [apply Permutation_sym, Permutation_nil in Hperm; discriminate|].
    apply StronglySorted_inv in Hs1 as [Hst Hat].
    apply StronglySorted_inv in Hs2 as [Hsu Hbu].
    rewrite Forall_forall in Hat, Hbu.
    assert (Hab : a = b).
    { assert (Hb : In b (a :: t))
        by (apply (Permutation_in _ (Permutation_sym Hperm)); now left).
      assert (Ha : In a (b :: u)) by (apply (Permutation_in _ Hperm); now left).
      destruct Hb as [Hb | Hb]; [exact Hb|].
      destruct Ha as [Ha | Ha]; [now symmetry|].
      apply Htie; [now left | now right | now apply Hat | now apply Hbu]. }
    subst b. f_equal.
    apply Permutation_cons_inv in Hperm. apply NoDup_cons_iff in Hnd as [_ Hnd].
    apply IH; try assumption.
    intros x y Hx Hy. apply Htie; now right.
Qed.



Definition rare_lines : list OrderDetail.row :=
  detail 10102 "S24_3969" 1 :: popular_lines.


(** X15. The low-demand set of step 10 holds no product bought by 20 or
    more distinct customers.  Run on the same data under any two choices of
    the engine, step 10 lists the same rows, each once; and when no two
    listed rows share both last and first name, it lists them in the same
    order: the two lists are equal. *)
Theorem under_20_repeatable (E1 E2 : Engine)
  (es : list Employee.row) (ofs : list Office.row) (cs : list Customer.row)
  (os : list Order.row) (ods : list OrderDetail.row) :
  (forall code,
      In code (low_demand_products ods os) ->
      (List.length (purchasers ods os code) < 20)%nat)
  /\ Permutation (select_under_20 E1 es ofs cs os ods) (select_under_20 E2 es ofs cs os ods)
  /\ NoDup (select_under_20 E1 es ofs cs os ods)
  /\ (NoDup (map name_key (under_20_distinct es ofs cs os ods)) ->
      select_under_20 E1 es ofs cs os ods = select_under_20 E2 es ofs cs os ods).
Proof.
  pose proof (under_20_is_distinct E1 es ofs cs os ods) as H1.
  pose proof (under_20_is_distinct E2 es ofs cs os ods) as H2.
  assert (Hnd : NoDup (select_under_20 E1 es ofs cs os ods)).
  { eapply Permutation_NoDup; [apply Permutation_sym, H1 | apply NoDup_nodup]. }
  split; [|split; [|split]].
  - intros code Hin. now apply in_low_demand in Hin.
  - eapply perm_trans; [exact H1 | now apply Permutation_sym].
  - exact Hnd.
  - intros Hnames.
    apply (sorted_lists_agree last_then_first); try apply under_20_by_name.
    + eapply perm_trans; [exact H1 | now apply Permutation_sym].
    + exact Hnd.
    + apply same_names_same_row.
      eapply Permutation_NoDup; [|exact Hnames].
      apply Permutation_map, Permutation_sym, H1.
Qed.

Definition two_sellers : list Employee.row :=
  [employee 1216 "Steve" "Patterson" (VText "1"); employee 1188 "Julie" "Firrelli" (VText "1")].

Definition seller_customers : list Customer.row :=
  [customer 1 "a" "A" (VInt 1188) (VInt 21000); customer 2 "b" "B" (VInt 1216) (VInt 71800)].

Lemma under_20_repeatable_witness :
  NoDup (map name_key (under_20_distinct two_sellers [boston] seller_customers
                         twenty_orders rare_lines))
  /\ select_under_20 rowid_engine two_sellers [boston] seller_customers twenty_orders rare_lines
     = [ (VInt 1188, VText "Julie", VText "Firrelli", VText "Boston", VText "1");
         (VInt 1216, VText "Steve", VText "Patterson", VText "Boston", VText "1") ]
  /\ select_under_20 rowid_engine two_sellers [boston] seller_customers twenty_orders rare_lines
     = select_under_20 reverse_engine two_sellers [boston] seller_customers
         twenty_orders rare_lines
  /\ low_demand_products rare_lines twenty_orders = [VText "S24_3969"]
  /\ (List.length (purchasers rare_lines twenty_orders (VText "S24_3969")) < 20)%nat.
Proof.
  assert (Hnames : NoDup (map name_key (under_20_distinct two_sellers [boston]
                                          seller_customers twenty_orders rare_lines))).
  { vm_compute. repeat constructor; simpl; intuition discriminate. }
  destruct (under_20_repeatable rowid_engine reverse_engine two_sellers [boston]
              seller_customers twenty_orders rare_lines) as (Hlow & _ & _ & Hsame).
  split; [exact Hnames|]. split; [vm_compute; reflexivity|].
  split; [exact (Hsame Hnames)|]. split; [vm_compute; reflexivity|].
  apply Hlow. vm_compute. now left.
Defined.

(** ** How a run ends, table by table *)

(** The tables the ten steps read. *)
Definition schema_tables : list string :=
  ["offices"; "employees"; "customers"; "orders"; "orderdetails"; "products"; "payments"].

(** The first table a run misses, in the order in which the steps name
    their tables. *)
Definition first_missing (db : database) : option string :=
  match employees db, offices db, customers db, orders db, payments db,
        products db, orderdetails db with
  | None, _, _, _, _, _, _ => Some "employees"
  | _, None, _, _, _, _, _ => Some "offices"
  | _, _, None, _, _, _, _ => Some "customers"
  | _, _, _, None, _, _, _ => Some "orders"
  | _, _, _, _, None, _, _ => Some "payments"
  | _, _, _, _, _, None, _ => Some "products"
  | _, _, _, _, _, _, None => Some "orderdetails"
  | _, _, _, _, _, _, _ => None
  end.

(** Step 7 on the database adds up a group of quantities beyond 64 bits. *)
Definition units_overflow_in (E : Engine) (db : database) : bool :=
  match products db, orderdetails db with
  | Some ps, Some ods => units_overflow E ps ods
  | _, _ => false
  end.

Lemma failure_first_missing (E : Engine) (db : database) :
  failure (script E) db
  = match first_missing db with
    | Some t => Some (DatabaseError (String.append "no such table: " t))
    | None => if units_overflow_in E db then Some (DatabaseError "integer overflow")
              else None
    end.
Proof.
  destruct db as [o e c r d p y]. unfold first_missing, units_overflow_in.
  cbn [offices employees customers orders orderdetails products payments].
  destruct e; [|reflexivity]. destruct o; [|reflexivity].
  destruct c; [|reflexivity]. destruct r; [|reflexivity].
  destruct y; [|reflexivity]. destruct p; [|reflexivity].
  destruct d; [|reflexivity].
  unfold script. cbn [failure].
  unfold df_boston, df_zero_emp, df_employee, df_contacts, df_payment, df_credit,
    df_product_sold, rbind, from, ok.
  cbn [offices employees customers orders orderdetails products payments].
  destruct (units_overflow E _ _); reflexivity.
Qed.

Lemma first_missing_absent (db : database) (t : string) :
  first_missing db = Some t -> In t schema_tables /\ ~ In t (table_names db).
Proof.
  destruct db as [o e c r d p y]. unfold first_missing, table_names.
  cbn [offices employees customers orders orderdetails products payments].
  destruct e, o, c, r, y, p, d; intros H; try discriminate; injection H as <-;
    (split; [simpl; tauto | simpl; intuition discriminate]).
Qed.

Lemma first_missing_none (db : database) :
  first_missing db = None <-> table_names db = schema_tables.
Proof.
  destruct db as [o e c r d p y]. unfold first_missing, table_names, schema_tables.
  cbn [offices employees customers orders orderdetails products payments].
  destruct e, o, c, r, y, p, d; split; intros H; try discriminate; reflexivity.
Qed.

(** X9. On a database file, the run completes exactly when all seven tables
    the steps read are present and no sum of step 7 leaves the 64-bit range.
    Otherwise it ends with the error [no such table: t], where [t] is an
    absent table: the first one missing in the order employees, offices,
    customers, orders, payments, products, orderdetails; or, with all seven
    present, with the error [integer overflow] of step 7. *)
Theorem run_needs_tables (E : Engine) (inv : invocation) (db : database) :
  files inv database_path = Stored db ->
  (fst (run E inv) = inr tt
   <-> table_names db = schema_tables /\ units_overflow_in E db = false)
  /\ (forall e, fst (run E inv) = inl e ->
        (exists t, first_missing db = Some t
                   /\ e = DatabaseError (String.append "no such table: " t)
                   /\ In t schema_tables /\ ~ In t (table_names db))
        \/ (table_names db = schema_tables
            /\ units_overflow_in E db = true
            /\ e = DatabaseError "integer overflow")).
Proof.
  intros Hfile. rewrite run_ending, Hfile. unfold ending.
  rewrite failure_first_missing, <- first_missing_none.
  destruct (first_missing db) as [t|] eqn:Hm; simpl.
  - split.
    + split; [discriminate | intros [H _]; discriminate].
    + intros e He. injection He as <-. left. exists t.
      destruct (first_missing_absent db t Hm). auto.
  - destruct (units_overflow_in E db); simpl; split.
    + split; [discriminate | intros [_ H]; discriminate].
    + intros e He. injection He as <-. right.
      split; [now apply first_missing_none | auto].
    + tauto.
    + discriminate.
Qed.

(** The sales database without its [orders] table. *)
Definition orderless_database : database :=
  {| offices := offices sales_database; employees := employees sales_database;
     customers := customers sales_database; orders := None;
     orderdetails := orderdetails sales_database; products := products sales_database;
     payments := None |}.

(** One product with two order lines of [2^62] units each. *)
Definition bulk_database : database :=
  with_products [renault_1]
    [detail 10100 "S10_1949" (2 ^ 62); detail 10101 "S10_1949" (2 ^ 62)].

Lemma run_needs_tables_witness :
  files (invoke_on (Stored orderless_database)) database_path = Stored orderless_database
  /\ fst (run rowid_engine (invoke_on (Stored orderless_database)))
     = inl (DatabaseError "no such table: orders")
  /\ table_names orderless_database <> schema_tables
  /\ table_names bulk_database = schema_tables
  /\ fst (run rowid_engine (invoke_on (Stored bulk_database)))
     = inl (DatabaseError "integer overflow")
  /\ fst (run rowid_engine (invoke_on (Stored sales_database))) = inr tt.
Proof.
  destruct (run_needs_tables rowid_engine (invoke_on (Stored orderless_database))
              orderless_database eq_refl) as [Hiff Herr].
  assert (Hrun : fst (run rowid_engine (invoke_on (Stored orderless_database)))
                 = inl (DatabaseError "no such table: orders"))
    by (vm_compute; reflexivity).
  split; [reflexivity|]. split; [exact Hrun|]. split.
  - intros Hall.
    assert (Hdone : fst (run rowid_engine (invoke_on (Stored orderless_database))) = inr tt)
      by (apply Hiff; split; [exact Hall | reflexivity]).
    rewrite Hrun in Hdone. discriminate.
  - split; [reflexivity|]. split.
    + destruct (run_needs_tables rowid_engine (invoke_on (Stored bulk_database))
                  bulk_database eq_refl) as [_ Hbulk].
      destruct (fst (run rowid_engine (invoke_on (Stored bulk_database)))) as [e|[]] eqn:Hb.
      * destruct (Hbulk e eq_refl) as [(t & Hm & _)|(_ & _ & ->)];
          [vm_compute in Hm; discriminate | reflexivity].
      * vm_compute in Hb. discriminate.
    + apply (run_needs_tables rowid_engine (invoke_on (Stored sales_database))
               sales_database eq_refl).
      split; vm_compute; reflexivity.
Defined.

(** ** What a run prints *)

Lemma ending_effects (E : Engine) (db : database) (made : list string) :
  stdout (snd (ending E db made))
  = [frame ["name"] (fun n => [VText n]) (arrange E (table_names db))]
  /\ created (snd (ending E db made)) = made
  /\ In ("df_tables", frame ["name"] (fun n => [VText n]) (arrange E (table_names db)))
       (globals (snd (ending E db made))).
Proof.
  unfold ending. destruct (failure (script E) db); simpl; repeat split; now left.
Qed.

(** X10. A run that opens the database prints exactly one table, the list of
    the tables present, which is also the table bound to [df_tables]; it
    does so before the first step, hence also when a later step fails.  A
    run whose connect fails prints nothing. *)
Theorem prints_table_list (E : Engine) (inv : invocation) :
  (files inv database_path = Unopenable -> stdout (snd (run E inv)) = [])
  /\ (forall db, files inv database_path = Stored db ->
        exists df, stdout (snd (run E inv)) = [df]
                   /\ In ("df_tables", df) (globals (snd (run E inv)))
                   /\ columns df = ["name"]
                   /\ forall t, In [VText t] (rows df) <-> In t (table_names db))
  /\ (files inv database_path = Missing ->
        stdout (snd (run E inv)) = [{| columns := ["name"]; rows := [] |}]).
Proof.
  rewrite run_ending. split; [|split].
  - now intros ->.
  - intros db ->. destruct (ending_effects E db []) as (Hout & _ & Hglob).
    eexists. split; [exact Hout|]. split; [exact Hglob|]. split; [reflexivity|].
    intros t. unfold frame. cbn [rows]. rewrite in_map_iff. split.
    + intros (n & Heq & Hin). injection Heq as ->.
      now apply (Permutation_in _ (arrange_perm E _ _)) in Hin.
    + intros Hin. exists t. split; [reflexivity|].
      now apply (Permutation_in _ (Permutation_sym (arrange_perm E _ _))).
  - intros ->. destruct (ending_effects E empty_database [database_path]) as (Hout & _).
    rewrite Hout. unfold frame. f_equal. f_equal.
    pose proof (arrange_perm E _ (table_names empty_database)) as Hp.
    apply Permutation_sym, Permutation_nil in Hp. now rewrite Hp.
Qed.

Lemma prints_table_list_witness :
  files (invoke_on (Stored unpaid_database)) database_path = Stored unpaid_database
  /\ fst (run rowid_engine (invoke_on (Stored unpaid_database)))
     = inl (DatabaseError "no such table: payments")
  /\ exists df, stdout (snd (run rowid_engine (invoke_on (Stored unpaid_database)))) = [df]
                /\ In [VText "orders"] (rows df) /\ ~ In [VText "payments"] (rows df).
Proof.
  destruct (proj1 (proj2 (prints_table_list rowid_engine (invoke_on (Stored unpaid_database))))
              unpaid_database eq_refl) as (df & Hout & _ & _ & Hrows).
  split; [reflexivity|]. split; [vm_compute; reflexivity|].
  exists df. split; [exact Hout|]. split.
  - apply Hrows. vm_compute. tauto.
  - intros Hin. apply Hrows in Hin. vm_compute in Hin. intuition discriminate.
Defined.

(** ** Step 7: what the rows add up to *)

(** The order detail references a product of the table. *)
Definition known_product (ps : list Product.row) (od : OrderDetail.row) : bool :=
  existsb (fun p => sql_eq (Product.productCode p) (OrderDetail.productCode od)) ps.

Definition row_orders (r : value * Z * option Z) : Z := snd (fst r).

Definition row_units (r : value * Z * option Z) : Z :=
  match snd r with Some u => u | None => 0 end.

Lemma sql_sum_total (l : list (option Z)) :
  match sql_sum l with Some u => u | None => 0 end = total (present l).
Proof. unfold sql_sum. now destruct (present l). Qed.

Lemma present_app {A : Type} (l1 l2 : list (option A)) :
  present (l1 ++ l2) = present l1 ++ present l2.
Proof. unfold present. apply flat_map_app. Qed.

Lemma total_app (l1 l2 : list Z) : total (l1 ++ l2) = total l1 + total l2.
Proof. unfold total. induction l1 as [|x t IH]; simpl; lia. Qed.

Lemma present_perm {A : Type} (l1 l2 : list (option A)) :
  Permutation l1 l2 -> Permutation (present l1) (present l2).
Proof. unfold present. apply Permutation_flat_map. Qed.

(** Summing a column group by group sums it over all rows. *)
Lemma sum_by_group {A K : Type} (key_dec : forall x y : K, {x = y} + {x <> y})
  (key : A -> K) (col : A -> option Z) (l : list A) :
  total (map (fun kg : K * list A => total (present (map col (snd kg))))
           (group_by key_dec key l))
  = total (present (map col l)).
Proof.
  rewrite <- (total_perm _ _
                (present_perm _ _ (Permutation_map col (group_by_partition key_dec key l)))).
  induction (group_by key_dec key l) as [|[k g] gs IH]; [reflexivity|].
  cbn [map flat_map snd]. rewrite map_app, present_app, total_app, <- IH. reflexivity.
Qed.

Lemma sql_count_all (l : list value) :
  (forall v, In v l -> v <> VNull) -> sql_count l = Z.of_nat (List.length l).
Proof.
  intros H. unfold sql_count, non_null. f_equal.
  induction l as [|v t IH]; [reflexivity|].
  cbn [filter]. assert (Hv : v <> VNull) by (apply H; now left).
  destruct v; [now elim Hv | |]; cbn [is_null negb List.length]; f_equal; apply IH;
    intros w Hw; apply H; now right.
Qed.

Lemma running_in_range (l : list Z) :
  forall acc, running_overflow acc l = false -> l <> [] -> in_int64 (acc + total l) = true.
Proof.
  induction l as [|x t IH]; intros acc Hrun Hne; [contradiction|].
  cbn [running_overflow] in Hrun.
  destruct (in_int64 (acc + x)) eqn:Hx; [|discriminate].
  destruct t as [|y u].
  - unfold total. simpl. now rewrite Z.add_0_r.
  - change (total (x :: y :: u)) with (x + total (y :: u)).
    rewrite Z.add_assoc. apply IH; [exact Hrun | discriminate].
Qed.

Lemma sum_in_range (E : Engine) (l : list (option Z)) (u : Z) :
  sum_overflows E l = false -> sql_sum l = Some u -> in_int64 u = true.
Proof.
  unfold sum_overflows, sql_sum. intros Hrun Hsum.
  pose proof (arrange_perm E _ (present l)) as Hperm.
  destruct (present l) as [|z zs] eqn:Hp; [discriminate|].
  injection Hsum as <-.
  change (z + total zs) with (total (z :: zs)).
  rewrite <- (total_perm _ _ Hperm).
  change (total (arrange E (z :: zs))) with (0 + total (arrange E (z :: zs))).
  apply running_in_range; [exact Hrun|].
  intros Hnil. rewrite Hnil in Hperm. now apply Permutation_nil in Hperm.
Qed.

(** A [totalunits] cell: NULL or a 64-bit integer. *)
Definition units_in_range (r : value * Z * option Z) : Prop :=
  match snd r with
  | Some u => in_int64 u = true
  | None => True
  end.

(** X12. When step 7 returns a table on unique product codes, its rows are
    those of the grouped join, every [totalunits] is NULL or a 64-bit
    integer, the [numorders] add up to the number of order details that
    reference a product of the table, and the [totalunits] to the sum of
    their quantities: each such order detail is counted in exactly one row,
    also when several products share a name, and order details of unknown
    products in none. *)
Theorem product_sold_totals (E : Engine) (db : database)
  (ps : list Product.row) (ods : list OrderDetail.row) (df : DataFrame) :
  products db = Some ps -> orderdetails db = Some ods ->
  NoDup (map Product.productCode ps) ->
  df_product_sold E db = inr df ->
  rows df = map sold_cells (select_product_sold E ps ods)
  /\ Forall units_in_range (select_product_sold E ps ods)
  /\ total (map row_orders (select_product_sold E ps ods))
     = Z.of_nat (List.length (filter (known_product ps) ods))
  /\ total (map row_units (select_product_sold E ps ods))
     = total (present (map OrderDetail.quantityOrdered (filter (known_product ps) ods))).
Proof.
  intros Hps Hods Hnd Hdf.
  unfold df_product_sold, rbind, from, ok in Hdf. rewrite Hps, Hods in Hdf.
  cbv beta iota in Hdf.
  destruct (units_overflow E ps ods) eqn:Hov; [discriminate|]. injection Hdf as <-.
  assert (Hperm : Permutation (select_product_sold E ps ods) (sold_groups ps ods)).
  { unfold select_product_sold.
    eapply perm_trans; [apply order_by_perm | apply arrange_perm]. }
  assert (Hjoin : Permutation (map snd (sold_join ps ods)) (filter (known_product ps) ods)).
  { apply (keyed_join_right Product.productCode OrderDetail.productCode ps ods Hnd). }
  split; [reflexivity|]. split; [|split].
  - apply Forall_forall. intros r Hr.
    apply (Permutation_in _ Hperm) in Hr. unfold sold_groups in Hr.
    apply in_map_iff in Hr as ([name g] & <- & Hg).
    unfold units_in_range, totalunits. cbn [snd].
    destruct (sql_sum (map (fun '(_, o) => OrderDetail.quantityOrdered o) g)) as [u|] eqn:Hu;
      [|exact I].
    apply (sum_in_range E _ u) in Hu; [exact Hu|].
    unfold units_overflow in Hov.
    destruct (sum_overflows E (map (fun '(_, o) => OrderDetail.quantityOrdered o) g))
      eqn:Hsum; [|reflexivity].
    assert (Hex : existsb
                    (fun '(_, g0) =>
                       sum_overflows E
                         (map (fun '(_, o) => OrderDetail.quantityOrdered o) g0))
                    (group_by value_eq_dec (fun '(p, _) => Product.productName p)
                       (sold_join ps ods)) = true).
    { apply existsb_exists. exists (name, g). split; [exact Hg | exact Hsum]. }
    rewrite Hex in Hov. discriminate.
  - rewrite (total_perm _ _ (Permutation_map row_orders Hperm)).
    unfold sold_groups, numorders. rewrite map_map.
    erewrite map_ext;
      [rewrite (count_by_group value_eq_dec
                  (fun '(p, _) => Product.productName p)
                  (fun '(_, o) => OrderDetail.productCode o) (sold_join ps ods))|].
    + erewrite map_ext; [rewrite <- (map_map snd OrderDetail.productCode)|now intros [p o]].
      rewrite (sql_count_perm _ _ (Permutation_map OrderDetail.productCode Hjoin)).
      rewrite sql_count_all; [now rewrite length_map|].
      intros v Hv. apply in_map_iff in Hv as (od & <- & Hod).
      apply filter_In in Hod as [_ Hk]. unfold known_product in Hk.
      apply existsb_exists in Hk as (p & _ & Hon).
      now apply sql_eq_not_null in Hon.
    + now intros [name g].
  - rewrite (total_perm _ _ (Permutation_map row_units Hperm)).
    unfold sold_groups, totalunits. rewrite map_map.
    erewrite map_ext;
      [rewrite (sum_by_group value_eq_dec
                  (fun '(p, _) => Product.productName p)
                  (fun '(_, o) => OrderDetail.quantityOrdered o) (sold_join ps ods))|].
    + erewrite map_ext; [rewrite <- (map_map snd OrderDetail.quantityOrdered)|now intros [p o]].
      apply total_perm, present_perm, Permutation_map, Hjoin.
    + intros [name g]. unfold row_units. cbn [snd]. apply sql_sum_total.
Qed.

Definition renault_database : database :=
  with_products [renault_1; renault_2] (detail 10103 "S99_9999" 9 :: renault_lines).

Lemma product_sold_totals_witness :
  NoDup (map Product.productCode [renault_1; renault_2])
  /\ df_product_sold rowid_engine renault_database
     = inr {| columns := ["productName"; "numorders"; "totalunits"];
              rows := [[VText "1952 Alpine Renault 1300"; VInt 3; VInt 102]] |}
  /\ total (map row_orders
              (select_product_sold rowid_engine [renault_1; renault_2]
                 (detail 10103 "S99_9999" 9 :: renault_lines))) = 3
  /\ total (map row_units
              (select_product_sold rowid_engine [renault_1; renault_2]
                 (detail 10103 "S99_9999" 9 :: renault_lines))) = 102.
Proof.
  assert (Hnd : NoDup (map Product.productCode [renault_1; renault_2])).
  { simpl. repeat (constructor; [simpl; intuition discriminate|]). constructor. }
  assert (Hdf : df_product_sold rowid_engine renault_database
                = inr {| columns := ["productName"; "numorders"; "totalunits"];
                         rows := [[VText "1952 Alpine Renault 1300"; VInt 3; VInt 102]] |})
    by (vm_compute; reflexivity).
  destruct (product_sold_totals rowid_engine renault_database [renault_1; renault_2]
              (detail 10103 "S99_9999" 9 :: renault_lines) _ eq_refl eq_refl Hnd Hdf)
    as (_ & _ & Hn & Hu).
  split; [exact Hnd|]. split; [exact Hdf|]. split.
  - rewrite Hn. reflexivity.
  - rewrite Hu. reflexivity.
Defined.

(** ** Step 6: the four that are kept *)




